(** * Prompts page (Tools/WebServer/pages/Prompts.tsx)

    A shallow embedding of the React component [Prompts]: its state, its
    asynchronous handlers, the effect that reloads the template list when the
    active category changes, and the rendering guards that decide which
    controls the operator can use.

    The handlers are [async] functions.  Each one runs synchronously up to an
    [await] on a [DataService] call, is suspended there, and is resumed when
    the call settles.  They are written below in a small process language
    ([Proc]) whose constructors are the statements the source uses: a state
    setter or an alert, an [await], a call that is not awaited, a thrown
    error.  A world holds the state of the last render, the list of
    suspended continuations and a trace of what was observable. *)

From Stdlib Require Import NArith String Ascii.
From stdpp Require Import base option list gmap.

Local Open Scope N_scope.

#[local] Set Warnings "-register-all".

(** ** JavaScript strings

    A JavaScript string is a sequence of UTF-16 code units; a code unit is a
    number below 65536.  The functions below never build a code unit, they
    only compare and move them. *)

Module JS.

Abbreviation jsstring := (list N).

(** A literal of the source, all of whose characters are ASCII. *)
Definition str (s : string) : jsstring :=
  (fun a => N_of_ascii a) <$> list_ascii_of_string s.

(** [WhiteSpace] and [LineTerminator] of ECMAScript: the code points that
    [String.prototype.trim] removes.  All of them are one code unit. *)
Definition isWhiteSpace (c : N) : bool :=
  (c =? 0x09) || (c =? 0x0A) || (c =? 0x0B) || (c =? 0x0C) || (c =? 0x0D)
  || (c =? 0x20) || (c =? 0xA0) || (c =? 0x1680)
  || ((0x2000 <=? c) && (c <=? 0x200A))
  || (c =? 0x2028) || (c =? 0x2029) || (c =? 0x202F) || (c =? 0x205F)
  || (c =? 0x3000) || (c =? 0xFEFF).

Fixpoint trimStart (s : jsstring) : jsstring :=
  match s with
  | c :: s' => if isWhiteSpace c then trimStart s' else s
  | [] => []
  end.

Definition trimEnd (s : jsstring) : jsstring :=
  reverse (trimStart (reverse s)).

(** [s.trim()] *)
Definition trim (s : jsstring) : jsstring := trimEnd (trimStart s).

(** Truthiness of a string: every string but the empty one. *)
Definition truthy (s : jsstring) : bool :=
  match s with [] => false | _ :: _ => true end.

(** [a === b] on strings. *)
Definition strict_eq (a b : jsstring) : bool := bool_decide (a = b).

(** [s.startsWith(p)] *)
Fixpoint startsWith (s p : jsstring) : bool :=
  match p, s with
  | [], _ => true
  | _ :: _, [] => false
  | a :: p', b :: s' => (a =? b) && startsWith s' p'
  end.

(** [s.endsWith(suffix)]: the search starts [length suffix] code units
    before the end, and fails when that would be before the beginning. *)
Definition endsWith (s suffix : jsstring) : bool :=
  if decide (length suffix ≤ length s)%nat
  then bool_decide (drop (length s - length suffix) s = suffix)
  else false.

(** [s.replace(pat, repl)] with a string pattern: the first occurrence of
    [pat], scanning from the left, is replaced, and nothing else.  ([repl]
    is taken literally; the source passes the empty string.) *)
Fixpoint replace (s pat repl : jsstring) : jsstring :=
  if startsWith s pat then repl ++ drop (length pat) s
  else match s with
       | [] => []
       | c :: s' => c :: replace s' pat repl
       end.

(** [l.includes(x)] on an array of strings. *)
Definition includes (l : list jsstring) (x : jsstring) : bool :=
  bool_decide (x ∈ l).

End JS.

Import JS.

(** ** The configuration object

    [config] of the global context is a JSON object.  The page reads none of
    its keys and writes one of two. *)

Inductive Json : Type :=
| JNull
| JBool (b : bool)
| JNum (n : Z)
| JStr (s : jsstring)
| JArr (l : list Json)
| JObj (m : gmap jsstring Json).

Abbreviation Config := (gmap jsstring Json).

Definition polishing_prompt_selection : jsstring := str "polishing_prompt_selection".
Definition translation_prompt_selection : jsstring := str "translation_prompt_selection".
Definition last_selected_id : jsstring := str "last_selected_id".
Definition prompt_content : jsstring := str "prompt_content".

(** The object literal [{ last_selected_id: id, prompt_content: text }]. *)
Definition selection_record (id text : jsstring) : Json :=
  JObj (<[prompt_content := JStr text]> (<[last_selected_id := JStr id]> ∅)).

(** ** State of the component

    One field per [useState] of the source, and [config] of the global
    context ([useGlobal]), which is [null] until the host has loaded it. *)

Record State : Type := mkState {
  categories : list jsstring;
  activeCategory : jsstring;
  prompts : list jsstring;
  selectedPrompt : option jsstring;
  content : jsstring;
  loading : bool;
  saving : bool;
  filter : jsstring;
  isCreating : bool;
  newName : jsstring;
  config : option Config
}.

(** The state of the first render. *)
Definition initialState (cfg : option Config) : State :=
  {| categories := []; activeCategory := []; prompts := [];
     selectedPrompt := None; content := []; loading := false;
     saving := false; filter := []; isCreating := false; newName := [];
     config := cfg |}.

(** ** DataService

    The five calls the page makes.  [DataService] itself is an external
    collaborator: a call is a request that settles later, with a value or
    with a rejection. *)

Inductive Request : Type :=
| listPromptCategories
| listPrompts (cat : jsstring)
| getPromptContent (cat filename : jsstring)
| savePromptContent (cat filename text : jsstring)
| saveConfig (cfg : Config).

(** What a call resolves to. The results of the two save calls are not
    looked at by the page. *)
Definition Answer (r : Request) : Type :=
  match r with
  | listPromptCategories | listPrompts _ => list jsstring
  | getPromptContent _ _ => jsstring
  | savePromptContent _ _ _ | saveConfig _ => unit
  end.

(** Modelled from the spec: the value a rejected call throws.  The source
    catches it as [e] and never inspects it; the taxonomy is the one of the
    spec's error handling section. *)
Inductive Error : Type := TransportFailure | NotFound | ReadOnly.

(** ** Observable actions *)

(** The texts shown by [alert]; [t(key) || fallback] is a lookup in the
    internationalized strings, which are external. *)
Inductive Message : Type :=
| msg_saved            (* t('msg_saved') || 'Saved successfully' *)
| msg_save_failed      (* 'Save failed' *)
| msg_prompt_updated   (* t('msg_prompt_updated') || 'Prompt applied' *)
| msg_apply_failed     (* 'Apply failed' *)
| msg_create_failed.   (* 'Create failed' *)

Inductive LogLine : Type :=
| log_categories   (* "Failed to load categories" *)
| log_prompts      (* "Failed to load prompts" *)
| log_content.     (* "Failed to load prompt content" *)

(** A synchronous statement of a handler. *)
Inductive Cmd : Type :=
| setCategories (l : list jsstring)
| setActiveCategory (c : jsstring)
| setPrompts (l : list jsstring)
| setSelectedPrompt (p : option jsstring)
| setContent (s : jsstring)
| setLoading (b : bool)
| setSaving (b : bool)
| setFilter (s : jsstring)
| setIsCreating (b : bool)
| setNewName (s : jsstring)
| setConfig (c : Config)
| alert (m : Message)
| console_error (l : LogLine) (e : Error).

(** ** Processes: the body of an [async] function *)

Inductive Proc : Type :=
| Done                                   (* the function returns *)
| Throw (e : Error)                      (* an error propagates *)
| Do (c : Cmd) (k : Proc)                (* c; k *)
| Await (r : Request) (k : Error + Answer r -> Proc)
                                         (* suspended on the call r *)
| Fork (p : Proc) (k : Proc).            (* p is called and not awaited *)

(** [const x = await r; k x] : a rejection is thrown at the [await]. *)
Definition await (r : Request) (k : Answer r -> Proc) : Proc :=
  Await r (fun x => match x with inl e => Throw e | inr v => k v end).

(** [p; k], also [await p; k] when [p] is an async function of the page. *)
Fixpoint seq (p k : Proc) : Proc :=
  match p with
  | Done => k
  | Throw e => Throw e
  | Do c p' => Do c (seq p' k)
  | Await r f => Await r (fun x => seq (f x) k)
  | Fork a p' => Fork a (seq p' k)
  end.

(** [try { p } catch (e) { h e }].  A call that is not awaited is outside
    the reach of the handler. *)
Fixpoint try_catch (p : Proc) (h : Error -> Proc) : Proc :=
  match p with
  | Done => Done
  | Throw e => h e
  | Do c p' => Do c (try_catch p' h)
  | Await r f => Await r (fun x => try_catch (f x) h)
  | Fork a p' => Fork a (try_catch p' h)
  end.

(** [try { p } finally { f }] *)
Fixpoint try_finally (p : Proc) (f : Proc) : Proc :=
  match p with
  | Done => f
  | Throw e => seq f (Throw e)
  | Do c p' => Do c (try_finally p' f)
  | Await r g => Await r (fun x => try_finally (g x) f)
  | Fork a p' => Fork a (try_finally p' f)
  end.

Declare Scope proc_scope.
Delimit Scope proc_scope with proc.
Bind Scope proc_scope with Proc.
Notation "c ;; k" := (Do c k%proc)
  (at level 100, k at level 200, right associativity) : proc_scope.
Notation "'let!' x := 'await' r 'in' k" := (await r (fun x => k%proc))
  (at level 10, x name, r at level 9, k at level 200) : proc_scope.
Infix ">>" := seq (at level 100, right associativity) : proc_scope.
Local Open Scope proc_scope.

(** ** The handlers

    A handler is a closure of one render: every state variable it reads has
    the value of that render, whatever the setters have done since.  The
    render is the argument [s]. *)

Module Prompts.

(** [selectedPrompt] is [string | null]: it is falsy when it is [null] and
    when it is the empty string. *)
Definition truthy_opt (o : option jsstring) : bool :=
  match o with Some s => truthy s | None => false end.

(** [cats[0]], read only where [cats.length > 0]. *)
Definition first (cats : list jsstring) : jsstring := default [] (cats !! 0%nat).

Definition loadCategories (s : State) : Proc :=
  try_catch
    (let! cats := await listPromptCategories in
     setCategories cats ;;
     if bool_decide (0 < length cats)%nat && negb (truthy (activeCategory s))
     then setActiveCategory
            (if includes cats (str "Translate") then str "Translate" else first cats) ;;
          Done
     else Done)
    (fun e => console_error log_categories e ;; Done).

Definition loadPrompts (cat : jsstring) : Proc :=
  setLoading true ;;
  try_finally
    (try_catch
       (let! list := await (listPrompts cat) in
        setPrompts list ;; Done)
       (fun e => console_error log_prompts e ;; Done))
    (setLoading false ;; Done).

Definition loadPromptContent (s : State) (filename : jsstring) : Proc :=
  setLoading true ;;
  try_finally
    (try_catch
       (let! data := await (getPromptContent (activeCategory s) filename) in
        setContent data ;;
        setSelectedPrompt (Some filename) ;;
        setIsCreating false ;; Done)
       (fun e => console_error log_content e ;; Done))
    (setLoading false ;; Done).

Definition handleSave (s : State) : Proc :=
  match selectedPrompt s with
  | None => Done
  | Some sel =>
    if negb (truthy sel) then Done else
    setSaving true ;;
    try_finally
      (try_catch
         (let! _ := await (savePromptContent (activeCategory s) sel (content s)) in
          alert msg_saved ;; Done)
         (fun _ => alert msg_save_failed ;; Done))
      (setSaving false ;; Done)
  end.

(** The key of the configuration that [handleApply] writes. *)
Definition apply_key (cat : jsstring) : jsstring :=
  if strict_eq cat (str "Polishing")
  then polishing_prompt_selection else translation_prompt_selection.

(** [{ ...config, [key]: { last_selected_id: ..., prompt_content: ... } }] *)
Definition apply_config (cat sel text : jsstring) (cfg : Config) : Config :=
  <[apply_key cat := selection_record (replace sel (str ".txt") []) text]> cfg.

Definition handleApply (s : State) : Proc :=
  match selectedPrompt s, config s with
  | Some sel, Some cfg =>
    if negb (truthy sel) then Done else
    let newConfig := apply_config (activeCategory s) sel (content s) cfg in
    try_catch
      (let! _ := await (saveConfig newConfig) in
       setConfig newConfig ;;
       alert msg_prompt_updated ;; Done)
      (fun _ => alert msg_apply_failed ;; Done)
  | _, _ => Done
  end.

(** The name under which [handleCreate] saves. *)
Definition create_filename (name : jsstring) : jsstring :=
  if endsWith name (str ".txt") then name else name ++ str ".txt".

Definition handleCreate (s : State) : Proc :=
  if negb (truthy (trim (newName s))) then Done else
  let filename := create_filename (newName s) in
  try_catch
    (let! _ := await (savePromptContent (activeCategory s) filename []) in
     (loadPrompts (activeCategory s) >>
      setIsCreating false ;;
      setNewName [] ;;
      Fork (loadPromptContent s filename) Done))
    (fun _ => alert msg_create_failed ;; Done).

(** [useEffect(() => { loadCategories(); }, [])] *)
Definition effectMount (s : State) : Proc :=
  Fork (loadCategories s) Done.

(** [useEffect(() => { if (activeCategory) { ... } }, [activeCategory])] *)
Definition effectActiveCategory (s : State) : Proc :=
  if truthy (activeCategory s)
  then Fork (loadPrompts (activeCategory s))
            (setSelectedPrompt None ;; setContent [] ;; Done)
  else Done.

(** The label of an entry of the file list: [p.replace(/\.(txt|json)$/, '')],
    the name without its extension. *)
Definition display_name (p : jsstring) : jsstring :=
  if endsWith p (str ".txt") then take (length p - 4) p
  else if endsWith p (str ".json") then take (length p - 5) p
  else p.

(** The names that the spec calls empty or whitespace-only. *)
Definition whitespace_only (name : jsstring) : Prop :=
  Forall (λ c, isWhiteSpace c = true) name.

Definition isSystem (s : State) : bool :=
  strict_eq (activeCategory s) (str "System").

Definition isSelectionTarget (s : State) : bool :=
  includes [str "Translate"; str "Polishing"] (activeCategory s).

End Prompts.

Import Prompts.

(** ** Worlds and the scheduler *)

(** A handler suspended at an [await]. *)
Record Pending : Type := mkPending {
  request : Request;
  resume : Error + Answer request -> Proc
}.

Inductive Output : Type :=
| requested (r : Request)           (* a call was made to DataService *)
| alerted (m : Message)
| logged (l : LogLine) (e : Error)
| unhandled (e : Error).            (* a rejection nobody caught *)

Record World : Type := mkWorld {
  view : State;               (* the state as of the last update *)
  inflight : list Pending;    (* the calls that have not settled, oldest first *)
  trace : list Output         (* what has been observable, oldest first *)
}.

Definition set_view (f : State -> State) (w : World) : World :=
  {| view := f (view w); inflight := inflight w; trace := trace w |}.

Definition emit (o : Output) (w : World) : World :=
  {| view := view w; inflight := inflight w; trace := trace w ++ [o] |}.

Definition suspend (p : Pending) (w : World) : World :=
  {| view := view w; inflight := inflight w ++ [p];
     trace := trace w ++ [requested (request p)] |}.

Definition exec (c : Cmd) (w : World) : World :=
  let s := view w in
  match c with
  | setCategories l =>
      set_view (fun s => mkState l (activeCategory s) (prompts s) (selectedPrompt s)
        (content s) (loading s) (saving s) (filter s) (isCreating s) (newName s) (config s)) w
  | setActiveCategory c =>
      set_view (fun s => mkState (categories s) c (prompts s) (selectedPrompt s)
        (content s) (loading s) (saving s) (filter s) (isCreating s) (newName s) (config s)) w
  | setPrompts l =>
      set_view (fun s => mkState (categories s) (activeCategory s) l (selectedPrompt s)
        (content s) (loading s) (saving s) (filter s) (isCreating s) (newName s) (config s)) w
  | setSelectedPrompt p =>
      set_view (fun s => mkState (categories s) (activeCategory s) (prompts s) p
        (content s) (loading s) (saving s) (filter s) (isCreating s) (newName s) (config s)) w
  | setContent t =>
      set_view (fun s => mkState (categories s) (activeCategory s) (prompts s) (selectedPrompt s)
        t (loading s) (saving s) (filter s) (isCreating s) (newName s) (config s)) w
  | setLoading b =>
      set_view (fun s => mkState (categories s) (activeCategory s) (prompts s) (selectedPrompt s)
        (content s) b (saving s) (filter s) (isCreating s) (newName s) (config s)) w
  | setSaving b =>
      set_view (fun s => mkState (categories s) (activeCategory s) (prompts s) (selectedPrompt s)
        (content s) (loading s) b (filter s) (isCreating s) (newName s) (config s)) w
  | setFilter t =>
      set_view (fun s => mkState (categories s) (activeCategory s) (prompts s) (selectedPrompt s)
        (content s) (loading s) (saving s) t (isCreating s) (newName s) (config s)) w
  | setIsCreating b =>
      set_view (fun s => mkState (categories s) (activeCategory s) (prompts s) (selectedPrompt s)
        (content s) (loading s) (saving s) (filter s) b (newName s) (config s)) w
  | setNewName t =>
      set_view (fun s => mkState (categories s) (activeCategory s) (prompts s) (selectedPrompt s)
        (content s) (loading s) (saving s) (filter s) (isCreating s) t (config s)) w
  | setConfig c =>
      set_view (fun s => mkState (categories s) (activeCategory s) (prompts s) (selectedPrompt s)
        (content s) (loading s) (saving s) (filter s) (isCreating s) (newName s) (Some c)) w
  | alert m => emit (alerted m) w
  | console_error l e => emit (logged l e) w
  end.

(** Runs a process up to the point where it returns or is suspended.  A
    call that is not awaited runs the same way, then its caller goes on. *)
Fixpoint run (p : Proc) (w : World) : World :=
  match p with
  | Done => w
  | Throw e => emit (unhandled e) w
  | Do c k => run k (exec c w)
  | Await r k => suspend (mkPending r k) w
  | Fork a k => run k (run a w)
  end.

(** After an update the effect on [activeCategory] runs when the value
    differs from the one of the render before, with the closure of the new
    render. *)
Definition flush_effects (before : State) (w : World) : World :=
  if bool_decide (activeCategory (view w) = activeCategory before) then w
  else run (effectActiveCategory (view w)) w.

(** ** Events *)

(** What DataService answers. *)
Inductive Reply : Type :=
| resolved_names (l : list jsstring)
| resolved_text (t : jsstring)
| resolved_ok
| rejected (e : Error).

(** A reply fits a request when it is a rejection or has the type of the
    request's result. *)
Definition fit (r : Request) (reply : Reply) : option (Error + Answer r) :=
  match reply with
  | rejected e => Some (inl e)
  | resolved_names l =>
      match r return option (Error + Answer r) with
      | listPromptCategories | listPrompts _ => Some (inr l)
      | _ => None
      end
  | resolved_text t =>
      match r return option (Error + Answer r) with
      | getPromptContent _ _ => Some (inr t)
      | _ => None
      end
  | resolved_ok =>
      match r return option (Error + Answer r) with
      | savePromptContent _ _ _ | saveConfig _ => Some (inr tt)
      | _ => None
      end
  end.

Inductive Event : Type :=
| clickCategory (cat : jsstring)      (* a category button *)
| changeFilter (text : jsstring)      (* the filter input *)
| clickNewPrompt                      (* the New Prompt button *)
| changeNewName (text : jsstring)     (* the name input of the draft *)
| submitCreate                        (* Enter in the name input, or its check button *)
| cancelCreate                        (* the X button of the draft *)
| clickPrompt (p : jsstring)          (* an entry of the file list *)
| changeContent (text : jsstring)     (* typing in the editor *)
| clickApply
| clickSave
| settle (i : nat) (reply : Reply).   (* the i-th call in flight settles *)

(** What the page uses of the host language and does not define:
    [String.prototype.toLowerCase], a table of Unicode.  Of it the proofs
    use one fact, [''.toLowerCase() === '']. *)
Class Host : Type := {
  toLowerCase : jsstring → jsstring;
  toLowerCase_empty : toLowerCase [] = []
}.

(** [s.includes(pat)] on strings: [pat] occurs somewhere in [s]. *)
Fixpoint string_includes (s pat : jsstring) : bool :=
  startsWith s pat
  || match s with
     | [] => false
     | _ :: s' => string_includes s' pat
     end.

(** [prompts.filter(p => p.toLowerCase().includes(filter.toLowerCase()))],
    the entries of the file list. *)
Definition filteredPrompts `{Host} (s : State) : list jsstring :=
  List.filter
    (λ p, string_includes (toLowerCase p) (toLowerCase (filter s)))
    (prompts s).

(** Whether the control of a user event is on the page and enabled, as the
    JSX of the render decides.  The entries of the file list are those of
    [prompts] that pass the filter. *)
Definition rendered `{Host} (s : State) (ev : Event) : bool :=
  match ev with
  | clickCategory cat => bool_decide (cat ∈ categories s)
  | changeFilter _ => true
  | clickNewPrompt => negb (isSystem s)
  | changeNewName _ | submitCreate | cancelCreate => isCreating s
  | clickPrompt p => bool_decide (p ∈ filteredPrompts s)
  | changeContent _ => truthy_opt (selectedPrompt s) && negb (isSystem s)
  | clickApply => truthy_opt (selectedPrompt s) && negb (isSystem s) && isSelectionTarget s
  | clickSave => truthy_opt (selectedPrompt s) && negb (isSystem s) && negb (saving s)
  | settle _ _ => false
  end.

(** The handler the JSX attaches to the control. *)
Definition handler (s : State) (ev : Event) : Proc :=
  match ev with
  | clickCategory cat => setActiveCategory cat ;; Done
  | changeFilter text => setFilter text ;; Done
  | clickNewPrompt => setIsCreating true ;; Done
  | changeNewName text => setNewName text ;; Done
  | submitCreate => handleCreate s
  | cancelCreate => setIsCreating false ;; Done
  | clickPrompt p => loadPromptContent s p
  | changeContent text => setContent text ;; Done
  | clickApply => handleApply s
  | clickSave => handleSave s
  | settle _ _ => Done
  end.

Definition take_inflight (i : nat) (w : World) : World :=
  {| view := view w; inflight := delete i (inflight w); trace := trace w |}.

(** One event.  [None] when the event cannot happen in this world: the
    control is not there, or no such call is in flight. *)
Definition step `{Host} (w : World) (ev : Event) : option World :=
  match ev with
  | settle i reply =>
      match inflight w !! i with
      | None => None
      | Some p =>
          match fit (request p) reply with
          | None => None
          | Some x => Some (flush_effects (view w) (run (resume p x) (take_inflight i w)))
          end
      end
  | _ =>
      if rendered (view w) ev
      then Some (flush_effects (view w) (run (handler (view w) ev) w))
      else None
  end.

Fixpoint steps `{Host} (w : World) (evs : list Event) : option World :=
  match evs with
  | [] => Some w
  | ev :: evs' =>
      match step w ev with
      | None => None
      | Some w' => steps w' evs'
      end
  end.

(** The page once mounted: first render, then the mount effect. *)
Definition mount (cfg : option Config) : World :=
  run (effectMount (initialState cfg))
      {| view := initialState cfg; inflight := []; trace := [] |}.

(** The calls at which a process is suspended once it has run: its own
    [await], or those of the calls it did not await. *)
Fixpoint suspensions (p : Proc) : list Pending :=
  match p with
  | Done | Throw _ => []
  | Do _ k => suspensions k
  | Await r k => [mkPending r k]
  | Fork a k => suspensions a ++ suspensions k
  end.

(** What a process makes observable once it has run. *)
Definition cmd_outputs (c : Cmd) : list Output :=
  match c with
  | alert m => [alerted m]
  | console_error l e => [logged l e]
  | _ => []
  end.

Fixpoint outputs (p : Proc) : list Output :=
  match p with
  | Done => []
  | Throw e => [unhandled e]
  | Do c k => cmd_outputs c ++ outputs k
  | Await r _ => [requested r]
  | Fork a k => outputs a ++ outputs k
  end.

(** ** Properties of a process on all its paths *)

(** Every statement of [p] passes [okc] and every call passes [okr],
    whatever the replies. *)
Fixpoint obeys (okc : Cmd → bool) (okr : Request → bool) (p : Proc) : Prop :=
  match p with
  | Done | Throw _ => True
  | Do c k => okc c = true ∧ obeys okc okr k
  | Await r k => okr r = true ∧ ∀ x, obeys okc okr (k x)
  | Fork a k => obeys okc okr a ∧ obeys okc okr k
  end.

Definition writes_config (c : Cmd) : bool :=
  match c with setConfig _ => true | _ => false end.

Definition persists_config (r : Request) : bool :=
  match r with saveConfig _ => true | _ => false end.

Definition touches_saving (c : Cmd) : bool :=
  match c with setSaving _ => true | _ => false end.

(** A process that neither installs nor persists a configuration. *)
Definition quiet : Proc → Prop :=
  obeys (λ c, negb (writes_config c)) (λ r, negb (persists_config r)).

(** A process that leaves the [saving] flag alone. *)
Definition calm : Proc → Prop :=
  obeys (λ c, negb (touches_saving c)) (λ _, true).

Definition settles_quietly (q : Pending) : Prop := ∀ x, quiet (resume q x).

Definition settles_calmly (q : Pending) : Prop := ∀ x, calm (resume q x).

(** A call in flight after which nothing more is awaited. *)
Definition last_leg (q : Pending) : Prop := ∀ x, suspensions (resume q x) = [].

(** A call in flight made by [handleApply]. *)
Definition apply_in_flight (q : Pending) : Prop :=
  persists_config (request q) = true ∧ last_leg q.

(** No call in flight will install or persist a configuration. *)
Definition Quiet (w : World) : Prop := Forall settles_quietly (inflight w).

(** Every call in flight is an apply or will leave the configuration. *)
Definition Known (w : World) : Prop :=
  Forall (λ q, settles_quietly q ∨ apply_in_flight q) (inflight w).

(** At most one element of [l] fails [P]. *)
Definition at_most_one_not {A : Type} (P : A → Prop) (l : list A) : Prop :=
  ∀ i j x y, l !! i = Some x → l !! j = Some y → i ≠ j → P x ∨ P y.

(** At most one call in flight will touch [saving], that one is on its
    last leg, and there is none when [saving] is off. *)
Definition OneSave (w : World) : Prop :=
  Forall (λ q, settles_calmly q ∨ last_leg q) (inflight w)
  ∧ at_most_one_not settles_calmly (inflight w)
  ∧ (saving (view w) = false → Forall settles_calmly (inflight w)).

(** The page goes from [w] to [w'] without a change of the configuration
    it holds and without a [saveConfig]. *)
Definition config_untouched (w w' : World) : Prop :=
  config (view w') = config (view w)
  ∧ ∃ t, trace w' = trace w ++ t
       ∧ Forall (λ o, ∀ c, o ≠ requested (saveConfig c)) t.

(** ** More of the page *)

(** The state after one setter: [assign (setLoading false) s] is [s] with
    [loading] off and every other field as in [s]. *)
Definition assign (c : Cmd) (s : State) : State :=
  view (exec c {| view := s; inflight := []; trace := [] |}).

(** No rejection leaves [p]: on every path, whatever the replies, an error
    thrown in [p] or in a call it does not await is caught. *)
Fixpoint contained (p : Proc) : Prop :=
  match p with
  | Done => True
  | Throw _ => False
  | Do _ k => contained k
  | Await _ k => ∀ x, contained (k x)
  | Fork a k => contained a ∧ contained k
  end.

(** The body of a [try]: [p] may throw, the calls it does not await may
    not. *)
Fixpoint guarded (p : Proc) : Prop :=
  match p with
  | Done | Throw _ => True
  | Do _ k => guarded k
  | Await _ k => ∀ x, guarded (k x)
  | Fork a k => contained a ∧ guarded k
  end.

(** The report of a rejected call: the loads write to the console, the
    writes alert. *)
Definition is_report (r : Request) (e : Error) (o : Output) : Prop :=
  match r with
  | listPromptCategories => o = logged log_categories e
  | listPrompts _ => o = logged log_prompts e
  | getPromptContent _ _ => o = logged log_content e
  | savePromptContent _ _ _ => o = alerted msg_save_failed ∨ o = alerted msg_create_failed
  | saveConfig _ => o = alerted msg_apply_failed
  end.

(** The first thing a call in flight does when it is rejected is to report
    it. *)
Definition reports_rejection (q : Pending) : Prop :=
  ∀ e, ∃ o t, outputs (resume q (inl e)) = o :: t ∧ is_report (request q) e o.

(** Every call that [p] makes, now or later, reports its rejection. *)
Fixpoint reporting (p : Proc) : Prop :=
  match p with
  | Done | Throw _ => True
  | Do _ k => reporting k
  | Await r k => reports_rejection (mkPending r k) ∧ ∀ x, reporting (k x)
  | Fork a k => reporting a ∧ reporting k
  end.

(** The calls that [loading] stands for. *)
Definition is_load (r : Request) : bool :=
  match r with
  | listPrompts _ | getPromptContent _ _ => true
  | _ => false
  end.

Definition load_in_flight (l : list Pending) : Prop :=
  Exists (λ q, is_load (request q) = true) l.

(** The value of [loading] once [p] has run, from the value before. *)
Fixpoint loading_after (p : Proc) (b : bool) : bool :=
  match p with
  | Done | Throw _ => b
  | Do (setLoading x) k => loading_after k x
  | Do _ k => loading_after k b
  | Await _ _ => b
  | Fork a k => loading_after k (loading_after a b)
  end.

(** [p] leaves [loading] on only with a load of its own in flight. *)
Definition closing (p : Proc) : Prop :=
  ∀ b, loading_after p b = true → load_in_flight (suspensions p).

(** [p] leaves [loading] on only if it was on, or with a load of its own in
    flight. *)
Definition neutral (p : Proc) : Prop :=
  ∀ b, loading_after p b = true → b = true ∨ load_in_flight (suspensions p).

(** A call in flight settles in a process that is closing if the call is a
    load and neutral if it is not. *)
Definition settles_tidily (rec : Proc → Prop) (q : Pending) : Prop :=
  ∀ x, (if is_load (request q) then closing (resume q x) else neutral (resume q x))
       ∧ rec (resume q x).

Fixpoint tidy (p : Proc) : Prop :=
  match p with
  | Done | Throw _ => True
  | Do _ k => tidy k
  | Await r k => settles_tidily tidy (mkPending r k)
  | Fork a k => tidy a ∧ tidy k
  end.

Definition Tidy (w : World) : Prop :=
  Forall (settles_tidily tidy) (inflight w)
  ∧ (loading (view w) = true → load_in_flight (inflight w)).

Definition asks_categories (o : Output) : bool :=
  match o with requested listPromptCategories => true | _ => false end.

Definition is_listPromptCategories (r : Request) : bool :=
  match r with listPromptCategories => true | _ => false end.

(** A process that never asks for the categories. *)
Definition settled_categories : Proc → Prop :=
  obeys (λ _, true) (λ r, negb (is_listPromptCategories r)).

(** The calls in flight settle in contained processes, and nothing has
    escaped so far. *)
Definition Contained (w : World) : Prop :=
  Forall (λ q, ∀ x, contained (resume q x)) (inflight w)
  ∧ Forall (λ o, ∀ e, o ≠ unhandled e) (trace w).

(** Every call in flight reports its rejection, and so does every call
    made after it settles. *)
Definition Reporting (w : World) : Prop :=
  Forall (λ q, reports_rejection q ∧ ∀ x, reporting (resume q x)) (inflight w).

(** How many times the categories have been asked for. *)
Fixpoint categories_requests (t : list Output) : nat :=
  match t with
  | [] => 0
  | o :: t' => (if asks_categories o then 1 else 0) + categories_requests t'
  end.

(** The categories have been asked for once, and no call in flight will
    ask for them again. *)
Definition Once (w : World) : Prop :=
  Forall (λ q, ∀ x, settled_categories (resume q x)) (inflight w)
  ∧ categories_requests (trace w) = 1%nat.

(** Lower case on the letters A to Z, which is what [toLowerCase] does on
    the names and texts of the examples. *)
Definition ascii_lower (s : jsstring) : jsstring :=
  (λ c, if (65 <=? c) && (c <=? 90) then c + 32 else c) <$> s.

(** The host of the examples. *)
Definition ascii_host : Host :=
  {| toLowerCase := ascii_lower; toLowerCase_empty := eq_refl |}.

(** ** Sample worlds *)

Definition demo_state : State :=
  {| categories := [str "System"; str "Translate"; str "Polishing"];
     activeCategory := str "Translate";
     prompts := [str "a.txt"; str "b.txt"];
     selectedPrompt := Some (str "a.txt");
     content := str "Hello World";
     loading := false; saving := false; filter := [];
     isCreating := false; newName := [];
     config := Some ∅ |}.

Definition demo_world : World :=
  {| view := demo_state; inflight := []; trace := [] |}.

(** The events that bring the page to [demo_state]: the categories and the
    list of [Translate] come, [a.txt] is opened and edited. *)
Definition opened_history : list Event :=
  [settle 0 (resolved_names [str "System"; str "Translate"; str "Polishing"]);
   settle 0 (resolved_names [str "a.txt"; str "b.txt"]);
   clickPrompt (str "a.txt");
   settle 0 (resolved_text (str "Hello"));
   changeContent (str "Hello World")].

(** The world after [opened_history]. *)
Definition opened_world : World :=
  {| view := demo_state; inflight := [];
     trace := [requested listPromptCategories;
               requested (listPrompts (str "Translate"));
               requested (getPromptContent (str "Translate") (str "a.txt"))] |}.

(** The operator creates a template named [a.txt.old] and types in it. *)
Definition created_history : list Event :=
  [settle 0 (resolved_names [str "System"; str "Translate"; str "Polishing"]);
   settle 0 (resolved_names [str "a.txt"]);
   clickNewPrompt;
   changeNewName (str "a.txt.old");
   submitCreate;
   settle 0 resolved_ok;
   settle 0 (resolved_names [str "a.txt"; str "a.txt.old.txt"]);
   settle 0 (resolved_text []);
   changeContent (str "Hello")].

Definition system_state : State :=
  {| categories := [str "System"; str "Translate"; str "Polishing"];
     activeCategory := str "System";
     prompts := [str "sys.txt"];
     selectedPrompt := Some (str "sys.txt");
     content := str "You are a translator.";
     loading := false; saving := false; filter := [];
     isCreating := false; newName := [];
     config := Some ∅ |}.

(** The events that bring the page to [system_state]: the operator goes to
    [System] and opens [sys.txt]. *)
Definition system_history : list Event :=
  [settle 0 (resolved_names [str "System"; str "Translate"; str "Polishing"]);
   settle 0 (resolved_names [str "a.txt"; str "b.txt"]);
   clickCategory (str "System");
   settle 0 (resolved_names [str "sys.txt"]);
   clickPrompt (str "sys.txt");
   settle 0 (resolved_text (str "You are a translator."))].

Definition draft_world : World :=
  {| view := {| categories := [str "System"; str "Translate"; str "Polishing"];
                activeCategory := str "Translate";
                prompts := [str "a.txt"; str "b.txt"];
                selectedPrompt := None; content := [];
                loading := false; saving := false; filter := [];
                isCreating := true; newName := str "foo";
                config := Some ∅ |};
     inflight := []; trace := [] |}.

Definition applied_history : list Event :=
  [settle 0 (resolved_names [str "System"; str "Translate"; str "Polishing"]);
   settle 0 (resolved_names [str "a.txt"; str "b.txt"]);
   clickPrompt (str "a.txt");
   settle 0 (resolved_text (str "Hello"));
   clickApply; settle 0 resolved_ok].

Definition applied_world : World :=
  Eval vm_compute in
    default (mount (Some ∅)) (@steps ascii_host (mount (Some ∅)) applied_history).

Definition edited_world : World :=
  Eval vm_compute in
    default applied_world
      (@steps ascii_host applied_world
         [changeContent (str "Hello World"); clickSave; settle 0 resolved_ok]).

(** * Properties *)

(** The properties hold on every host. *)
Section Page.

Context {host : Host}.

(** ** The scheduler *)

Lemma exec_inflight c w : inflight (exec c w) = inflight w.
Proof. by destruct c. Qed.

Lemma run_inflight p : ∀ w, inflight (run p w) = inflight w ++ suspensions p.
Proof.
  induction p as [|e|c k IH|r k _|a IHa k IHk]; intros w; simpl.
  - by rewrite app_nil_r.
  - by rewrite app_nil_r.
  - by rewrite IH, exec_inflight.
  - done.
  - by rewrite IHk, IHa, app_assoc.
Qed.

(** ** Events in a row *)

Lemma steps_cons_Some (w w1 w' : World) (ev : Event) (evs : list Event) :
  step w ev = Some w1 → steps w1 evs = Some w' → steps w (ev :: evs) = Some w'.
Proof. intros H1 H2. simpl. by rewrite H1. Qed.

(** One event in a chain of events: the step is computed in its own goal. *)
Ltac next_event := eapply steps_cons_Some.

(** The active category stays through the update. *)
Ltac same_category :=
  unfold flush_effects; simpl; rewrite ?bool_decide_eq_true_2 by done.

Lemma steps_app (w : World) (evs evs' : list Event) :
  steps w (evs ++ evs') =
  match steps w evs with Some w1 => steps w1 evs' | None => None end.
Proof.
  revert w. induction evs as [|ev evs IH]; intros w; simpl; [done|].
  by destruct (step w ev).
Qed.

(** ** The entries of the file list *)

(** With an empty filter every template of the list is shown. *)
Lemma filteredPrompts_empty_filter (s : State) :
  filter s = [] → filteredPrompts s = prompts s.
Proof.
  intros Hempty. unfold filteredPrompts. rewrite Hempty, toLowerCase_empty.
  induction (prompts s) as [|p l IH]; simpl; [done|].
  replace (string_includes (toLowerCase p) []) with true by (by destruct (toLowerCase p)).
  by rewrite IH.
Qed.

(** The world after a click on an entry of the file list. *)
Lemma click_prompt_world (w : World) (p : jsstring) :
  p ∈ filteredPrompts (view w) →
  step w (clickPrompt p) = Some (run (loadPromptContent (view w) p) w).
Proof.
  intros Hin. unfold step. cbn [rendered handler].
  rewrite bool_decide_eq_true_2 by done. f_equal.
  unfold flush_effects. simpl. by rewrite bool_decide_eq_true_2.
Qed.

(** One event of a history of the examples: computed, but for a click on
    an entry of the file list, which is shown because the filter is
    empty. *)
Ltac play_event :=
  first [ apply click_prompt_world;
          rewrite filteredPrompts_empty_filter by reflexivity;
          apply (bool_decide_unpack _); vm_compute; exact I
        | vm_compute; reflexivity ].

Ltac play := repeat (next_event; [play_event|]); reflexivity.

(** [opened_history] brings the page to [opened_world]. *)
Lemma opened_history_world : steps (mount (Some ∅)) opened_history = Some opened_world.
Proof. unfold opened_history. play. Qed.

(** ** Saving *)

(** What [handleSave] does at the click: nothing without a selected
    template, one [savePromptContent] call otherwise. *)
Lemma handleSave_suspensions s :
  request <$> suspensions (handleSave s) =
  match selectedPrompt s with
  | Some sel =>
      if truthy sel then [savePromptContent (activeCategory s) sel (content s)] else []
  | None => []
  end.
Proof.
  unfold handleSave. destruct (selectedPrompt s) as [sel|]; [|done].
  by destruct sel.
Qed.

(** C7: a save leaves the edit buffer alone at the click, and when its
    [savePromptContent] call is rejected, whatever the error and whatever
    has happened on the page since the click, the edit buffer is the one
    from before the rejection, the operator is alerted that the save failed,
    and [saving] is released.  Here [s] is the render in which Save was
    clicked, and [w] any later world in which the call that [handleSave]
    made is still in flight, at position [i]. *)
Theorem save_failure_preserves_buffer (s : State) (w : World) (i : nat) (e : Error) :
  truthy_opt (selectedPrompt s) = true →
  inflight w !! i = head (suspensions (handleSave s)) →
  (∀ w0, content (view (run (handleSave s) w0)) = content (view w0))
  ∧ ∃ w', step w (settle i (rejected e)) = Some w'
        ∧ content (view w') = content (view w)
        ∧ trace w' = trace w ++ [alerted msg_save_failed]
        ∧ saving (view w') = false
        ∧ inflight w' = delete i (inflight w).
Proof.
  intros Hsel Hi. unfold handleSave in *.
  destruct (selectedPrompt s) as [sel|]; [|done].
  simpl in Hsel. rewrite Hsel in *. simpl in Hi. split; [done|].
  unfold step. rewrite Hi. simpl.
  unfold flush_effects. simpl. rewrite bool_decide_eq_true_2 by done.
  eexists. split; [done|]. by simpl.
Qed.

(** ** Applying *)

(** What [handleApply] does at the click: nothing without a selected
    template or without a configuration, one [saveConfig] call otherwise,
    with the merged configuration. *)
Lemma handleApply_suspensions s :
  request <$> suspensions (handleApply s) =
  match selectedPrompt s, config s with
  | Some sel, Some cfg =>
      if truthy sel
      then [saveConfig (apply_config (activeCategory s) sel (content s) cfg)]
      else []
  | _, _ => []
  end.
Proof.
  unfold handleApply. destruct (selectedPrompt s) as [sel|]; [|done].
  destruct (config s); [|done]. by destruct sel.
Qed.

(** [handleApply] changes no state at the click. *)
Lemma handleApply_view s w : view (run (handleApply s) w) = view w.
Proof.
  unfold handleApply. destruct (selectedPrompt s) as [sel|]; [|done].
  destruct (config s); [|done]. by destruct sel.
Qed.

(** C6: the merged configuration is installed only once [saveConfig] has
    resolved.  Nothing is installed at the click; a rejection leaves the
    configuration held by the page, and the rest of its state, as it is
    and alerts that the apply failed; a resolution installs the merged
    configuration.  Here [s] is the render in which Apply was clicked, and
    [w] any later world in which the call that [handleApply] made is still
    in flight, at position [i]. *)
Theorem apply_installs_after_persistence
    (s : State) (sel : jsstring) (cfg : Config) (w : World) (i : nat) :
  selectedPrompt s = Some sel → truthy sel = true → config s = Some cfg →
  inflight w !! i = head (suspensions (handleApply s)) →
  (∀ w0, view (run (handleApply s) w0) = view w0)
  ∧ (∀ e, ∃ w', step w (settle i (rejected e)) = Some w'
        ∧ view w' = view w
        ∧ trace w' = trace w ++ [alerted msg_apply_failed])
  ∧ (∃ w', step w (settle i resolved_ok) = Some w'
        ∧ config (view w') = Some (apply_config (activeCategory s) sel (content s) cfg)
        ∧ trace w' = trace w ++ [alerted msg_prompt_updated]).
Proof.
  intros Hsel Ht Hcfg Hi. split; [intros; apply handleApply_view|].
  unfold handleApply in Hi. rewrite Hsel, Hcfg, Ht in Hi. simpl in Hi.
  unfold step. rewrite Hi. simpl. unfold flush_effects. simpl.
  rewrite !bool_decide_eq_true_2 by done. split.
  - intros e. eexists. split; [done|]. simpl. by destruct w as [[] ? ?].
  - eexists. by split; [done|].
Qed.

(** C9: the key that [handleApply] writes depends on one test, whether the
    active category is ['Polishing'].  Under every other category, the
    protected one and unknown ones included, the call is made and the key is
    ['translation_prompt_selection']. *)
Theorem apply_key_tests_Polishing_only (s : State) (sel : jsstring) (cfg : Config) :
  selectedPrompt s = Some sel → truthy sel = true → config s = Some cfg →
  (activeCategory s = str "Polishing" →
     request <$> suspensions (handleApply s) =
     [saveConfig (<[polishing_prompt_selection :=
                     selection_record (replace sel (str ".txt") []) (content s)]> cfg)])
  ∧ (activeCategory s ≠ str "Polishing" →
     request <$> suspensions (handleApply s) =
     [saveConfig (<[translation_prompt_selection :=
                     selection_record (replace sel (str ".txt") []) (content s)]> cfg)]).
Proof.
  intros Hsel Ht Hcfg. rewrite handleApply_suspensions, Hsel, Hcfg, Ht.
  unfold apply_config, apply_key, strict_eq. split; intros Hcat.
  - by rewrite bool_decide_eq_true_2.
  - by rewrite bool_decide_eq_false_2.
Qed.

(** The merge touches one key. *)
Lemma apply_config_lookup (cat sel text : jsstring) (cfg : Config) :
  apply_config cat sel text cfg !! apply_key cat =
  Some (selection_record (replace sel (str ".txt") []) text).
Proof. unfold apply_config. by rewrite lookup_insert_eq. Qed.

Lemma apply_config_lookup_ne (cat sel text : jsstring) (cfg : Config) (k : jsstring) :
  k ≠ apply_key cat → apply_config cat sel text cfg !! k = cfg !! k.
Proof. intros. unfold apply_config. by rewrite lookup_insert_ne. Qed.

Lemma apply_key_Translate : apply_key (str "Translate") = translation_prompt_selection.
Proof. reflexivity. Qed.

Lemma apply_key_Polishing : apply_key (str "Polishing") = polishing_prompt_selection.
Proof. reflexivity. Qed.

(** A name without a dot, followed by ['.txt'], loses exactly that suffix. *)
Lemma replace_txt_suffix (base : jsstring) :
  46 ∉ base → replace (base ++ str ".txt") (str ".txt") [] = base.
Proof.
  induction base as [|c base IH]; intros Hdot; [done|].
  apply not_elem_of_cons in Hdot as [Hc Hdot].
  cbn [app replace].
  replace (startsWith (c :: base ++ str ".txt") (str ".txt")) with false.
  - by rewrite IH.
  - change (str ".txt") with (46 :: str "txt"). cbn [startsWith].
    by rewrite (proj2 (N.eqb_neq 46 c)).
Qed.

(** C3, at a template whose name has ['.txt'] before its extension.  The
    operator creates [a.txt.old], which is saved as [a.txt.old.txt], types
    [Hello] and clicks Apply: the identifier written into the Binding
    Record is the name with its first ['.txt'] removed, [a.old.txt], while
    the name without its extension, as the file list shows it, is
    [a.txt.old]. *)
Theorem apply_removes_first_txt_not_extension :
  ∃ w', steps (mount (Some ∅)) (created_history ++ [clickApply]) = Some w'
    ∧ activeCategory (view w') = str "Translate"
    ∧ selectedPrompt (view w') = Some (str "a.txt.old.txt")
    ∧ request <$> inflight w' =
        [saveConfig (<[translation_prompt_selection :=
                        selection_record (str "a.old.txt") (str "Hello")]> ∅)]
    ∧ display_name (str "a.txt.old.txt") = str "a.txt.old"
    ∧ str "a.old.txt" ≠ str "a.txt.old".
Proof. eexists. split; [by vm_compute|]. by vm_compute. Qed.

(** ** Loading the categories *)

(** The category [loadCategories] picks from a list that is not empty:
    ['Translate'] when the list has it, the first name of the list
    otherwise. *)
Lemma loadCategories_pick (cats : list jsstring) :
  cats ≠ [] →
  (str "Translate" ∈ cats →
     (if includes cats (str "Translate") then str "Translate" else first cats)
     = str "Translate")
  ∧ (str "Translate" ∉ cats →
     head cats =
     Some (if includes cats (str "Translate") then str "Translate" else first cats)).
Proof.
  intros Hne. unfold includes. destruct cats as [|c rest]; [done|].
  case_bool_decide; by split.
Qed.

(** C10: when the first call for the categories resolves with a list that
    is not empty and the closure of [loadCategories] has no active
    category, the list becomes the list of categories and the active
    category becomes ['Translate'] if the list has it and the first name of
    the list otherwise.  A category is then selected exactly when
    ['Translate'] is in the list or the first name is not the empty string:
    in that case, if none was active before, the list of the category is
    asked for; when the first name is the empty string and ['Translate'] is
    not in the list, the page stays without an active category and asks
    for nothing.  Here [s] is the render whose [loadCategories] made the
    call (the first one), and [w] a world in which that call is in flight,
    at position [i]. *)
Theorem categories_loaded_selects
    (s : State) (w : World) (i : nat) (cats : list jsstring) :
  truthy (activeCategory s) = false →
  inflight w !! i = head (suspensions (loadCategories s)) →
  cats ≠ [] →
  ∃ w', step w (settle i (resolved_names cats)) = Some w'
        ∧ categories (view w') = cats
        ∧ (str "Translate" ∈ cats → activeCategory (view w') = str "Translate")
        ∧ (str "Translate" ∉ cats → head cats = Some (activeCategory (view w')))
        ∧ (activeCategory (view w') ≠ [] ↔
             str "Translate" ∈ cats ∨ ∃ c rest, cats = c :: rest ∧ c ≠ [])
        ∧ (activeCategory (view w) = [] → activeCategory (view w') ≠ [] →
             loading (view w') = true
             ∧ request <$> inflight w' =
                 (request <$> delete i (inflight w))
                 ++ [listPrompts (activeCategory (view w'))]
             ∧ trace w' = trace w ++ [requested (listPrompts (activeCategory (view w')))])
        ∧ (activeCategory (view w') = [] →
             inflight w' = delete i (inflight w) ∧ trace w' = trace w).
Proof.
  intros Hs Hi Hne. unfold step. rewrite Hi. simpl. rewrite Hs.
  rewrite bool_decide_eq_true_2 by (destruct cats; [done | simpl; lia]).
  simpl. eexists. split; [done|].
  destruct (loadCategories_pick cats Hne) as [Hyes Hno].
  set (pick := if includes cats (str "Translate") then _ else _) in *.
  unfold flush_effects, effectActiveCategory. simpl.
  assert (Hnamed : pick ≠ [] ↔
            str "Translate" ∈ cats ∨ ∃ c rest, cats = c :: rest ∧ c ≠ []).
  { destruct (decide (str "Translate" ∈ cats)) as [Hin|Hnin].
    - rewrite (Hyes Hin). split; [by left | done].
    - specialize (Hno Hnin). destruct cats as [|c rest]; [done|].
      injection Hno as <-. split.
      + intros Hc. right. by exists c, rest.
      + intros [?|(c' & rest' & Heq & Hc')]; [done|]. by injection Heq as <- _. }
  assert (Htruthy : ∀ c : jsstring, truthy c = true ↔ c ≠ []) by (by intros []).
  case_bool_decide as Heq; [|destruct (truthy pick) eqn:Hp]; simpl.
  - do 4 (split; [done|]). split; [|done]. intros Hnone Hpick. congruence.
  - do 4 (split; [done|]). split.
    + intros _ _. split; [done|]. split; [by rewrite fmap_app|done].
    + intros Hpick. by apply Htruthy in Hp.
  - do 4 (split; [done|]). split; [|done].
    intros _ Hpick. apply Htruthy in Hpick. congruence.
Qed.

(** ** Creating *)

Lemma trimStart_nil (s : jsstring) : trimStart s = [] ↔ whitespace_only s.
Proof.
  unfold whitespace_only. induction s as [|c s IH]; simpl.
  - split; [constructor | done].
  - destruct (isWhiteSpace c) eqn:Hc.
    + rewrite IH. split; [by constructor | by inversion 1].
    + split; [done | inversion 1; congruence].
Qed.

Lemma trimStart_whitespace_only (s : jsstring) :
  whitespace_only (trimStart s) ↔ whitespace_only s.
Proof.
  unfold whitespace_only. induction s as [|c s IH]; simpl; [done|].
  destruct (isWhiteSpace c) eqn:Hc; [|done].
  rewrite IH. split; [by constructor | by inversion 1].
Qed.

(** [name.trim()] is empty exactly for the empty and the whitespace-only
    names. *)
Lemma trim_nil (s : jsstring) : trim s = [] ↔ whitespace_only s.
Proof.
  unfold trim, trimEnd. rewrite <- trimStart_whitespace_only.
  transitivity (trimStart (reverse (trimStart s)) = []).
  { split; [|by intros ->].
    intros H. apply (f_equal reverse) in H. by rewrite reverse_involutive in H. }
  rewrite trimStart_nil. unfold whitespace_only. by rewrite Forall_reverse.
Qed.

Lemma handleCreate_rejects (s : State) :
  whitespace_only (newName s) → handleCreate s = Done.
Proof. intros H%trim_nil. unfold handleCreate. by rewrite H. Qed.

Lemma settle_middle (w : World) (l l' : list Pending) (p : Pending) (reply : Reply)
    (x : Error + Answer (request p)) :
  inflight w = l ++ p :: l' → fit (request p) reply = Some x →
  step w (settle (length l) reply) =
  Some (flush_effects (view w)
          (run (resume p x) {| view := view w; inflight := l ++ l'; trace := trace w |})).
Proof.
  intros Hl Hfit. unfold step, take_inflight. rewrite Hl, list_lookup_middle by done.
  rewrite Hfit. by rewrite delete_middle.
Qed.

Lemma settle_last (w : World) (l : list Pending) (p : Pending) (reply : Reply)
    (x : Error + Answer (request p)) :
  inflight w = l ++ [p] → fit (request p) reply = Some x →
  step w (settle (length l) reply) =
  Some (flush_effects (view w)
          (run (resume p x) {| view := view w; inflight := l; trace := trace w |})).
Proof.
  intros Hl Hfit. rewrite (settle_middle w l [] p reply x Hl Hfit).
  by rewrite app_nil_r.
Qed.

Lemma settle_at (w : World) (i : nat) (l l' : list Pending) (p : Pending)
    (reply : Reply) (x : Error + Answer (request p)) :
  inflight w = l ++ p :: l' → i = length l → fit (request p) reply = Some x →
  step w (settle i reply) =
  Some (flush_effects (view w)
          (run (resume p x) {| view := view w; inflight := l ++ l'; trace := trace w |})).
Proof. intros Hl -> Hfit. by apply settle_middle. Qed.

(** The last call in flight settles and the active category stays. *)
Ltac settle_last_call :=
  erewrite settle_last; [|done..]; simpl; unfold flush_effects; simpl;
  by rewrite bool_decide_eq_true_2.

Lemma create_filename_spec (name : jsstring) :
  (endsWith name (str ".txt") = true → create_filename name = name)
  ∧ (endsWith name (str ".txt") = false → create_filename name = name ++ str ".txt").
Proof. unfold create_filename. by split; intros ->. Qed.

(** C5: submitting the draft with an empty or whitespace-only name does
    nothing at all, so no call reaches the store.  With any other name the
    page calls [savePromptContent] for the active category with the name
    completed by ['.txt'] when it does not end with it, and the empty string
    as content; once that has resolved it asks for the template list again;
    once the list has come, the draft is closed and the content of the new
    name is requested, and when it comes the new name is the selected
    template.  [foo] and [foo.txt] give the same file name. *)
Theorem create_protocol (w : World) :
  isCreating (view w) = true →
  let name := newName (view w) in
  let cat := activeCategory (view w) in
  let filename := create_filename name in
  let n := length (inflight w) in
  (whitespace_only name → step w submitCreate = Some w)
  ∧ (¬ whitespace_only name →
     ∃ w1, step w submitCreate = Some w1
       ∧ view w1 = view w
       ∧ request <$> inflight w1 =
           (request <$> inflight w) ++ [savePromptContent cat filename []]
       ∧ ∃ w2, step w1 (settle n resolved_ok) = Some w2
         ∧ request <$> inflight w2 = (request <$> inflight w) ++ [listPrompts cat]
         ∧ ∀ l, ∃ w3, step w2 (settle n (resolved_names l)) = Some w3
           ∧ prompts (view w3) = l
           ∧ isCreating (view w3) = false
           ∧ newName (view w3) = []
           ∧ request <$> inflight w3 =
               (request <$> inflight w) ++ [getPromptContent cat filename]
           ∧ ∀ text, ∃ w4, step w3 (settle n (resolved_text text)) = Some w4
             ∧ selectedPrompt (view w4) = Some filename
             ∧ content (view w4) = text
             ∧ inflight w4 = inflight w)
  ∧ (endsWith name (str ".txt") = true → filename = name)
  ∧ (endsWith name (str ".txt") = false → filename = name ++ str ".txt")
  ∧ create_filename (str "foo") = str "foo.txt"
  ∧ create_filename (str "foo.txt") = str "foo.txt".
Proof.
  intros Hcreating name cat filename n.
  split; [|split; [|split; [apply create_filename_spec|
                    split; [apply create_filename_spec|by vm_compute]]]].
  - intros Hblank. unfold step. simpl. rewrite Hcreating.
    rewrite (handleCreate_rejects _ Hblank). simpl.
    unfold flush_effects. by rewrite bool_decide_eq_true_2.
  - intros Hname. rewrite <- trim_nil in Hname.
    destruct (trim name) as [|c t] eqn:Htrim; [done|].
    eexists. split.
    { unfold step. cbn [rendered handler]. rewrite Hcreating. unfold handleCreate.
      fold name. rewrite Htrim. simpl. unfold flush_effects. simpl.
      by rewrite bool_decide_eq_true_2. }
    split; [done|]. split. { simpl. by rewrite fmap_app. }
    eexists. split.
    { subst n. settle_last_call. }
    split. { simpl. by rewrite fmap_app. }
    intros l. eexists. split.
    { subst n. settle_last_call. }
    do 3 (split; [done|]). split. { simpl. by rewrite fmap_app. }
    intros text. eexists. split.
    { subst n. settle_last_call. }
    done.
Qed.

(** ** Switching category *)

(** A click on a category other than the active one: the effect on
    [activeCategory] asks for its templates and clears the selection. *)
Lemma click_other_category (w : World) (c : jsstring) :
  c ∈ categories (view w) → c ≠ activeCategory (view w) → truthy c = true →
  ∃ w', step w (clickCategory c) = Some w'
    ∧ categories (view w') = categories (view w)
    ∧ activeCategory (view w') = c
    ∧ selectedPrompt (view w') = None
    ∧ content (view w') = []
    ∧ inflight w' = inflight w ++ suspensions (loadPrompts c).
Proof.
  intros Hin Hne Ht. unfold step. cbn [rendered handler].
  rewrite bool_decide_eq_true_2 by done. eexists. split; [done|].
  unfold flush_effects, effectActiveCategory. simpl.
  rewrite bool_decide_eq_false_2 by done. by rewrite Ht.
Qed.

(** The list of a category arrives: it is installed, whatever the active
    category is by then. *)
Lemma list_arrives (w : World) (l l' : list Pending) (c : jsstring)
    (names : list jsstring) :
  inflight w = l ++ suspensions (loadPrompts c) ++ l' →
  ∃ w', step w (settle (length l) (resolved_names names)) = Some w'
    ∧ prompts (view w') = names
    ∧ activeCategory (view w') = activeCategory (view w)
    ∧ categories (view w') = categories (view w)
    ∧ inflight w' = l ++ l'.
Proof.
  intros Hl. simpl in Hl. erewrite settle_middle; [|done..].
  eexists. split; [done|]. unfold flush_effects. simpl.
  by rewrite bool_decide_eq_true_2.
Qed.

(** The request for a list is rejected: the list held stays. *)
Lemma list_fails (w : World) (l l' : list Pending) (c : jsstring) (e : Error) :
  inflight w = l ++ suspensions (loadPrompts c) ++ l' →
  ∃ w', step w (settle (length l) (rejected e)) = Some w'
    ∧ prompts (view w') = prompts (view w)
    ∧ activeCategory (view w') = activeCategory (view w)
    ∧ categories (view w') = categories (view w)
    ∧ inflight w' = l ++ l'.
Proof.
  intros Hl. simpl in Hl. erewrite settle_middle; [|done..].
  eexists. split; [done|]. unfold flush_effects. simpl.
  by rewrite bool_decide_eq_true_2.
Qed.

(** C1, as the code has it: after a switch to [c1] and then to [c2] before
    the list of [c1] has come, the list held is the one of the response that
    settles last.  When the response for [c1] comes first, or is rejected,
    the list held in the end is the one for [c2]; when it comes after the
    response for [c2], it is installed over it although [c2] is active. *)
Theorem category_switch_last_response_wins
    (w : World) (c1 c2 : jsstring) (l1 l2 : list jsstring) (e : Error) :
  c1 ∈ categories (view w) → c2 ∈ categories (view w) →
  truthy c1 = true → truthy c2 = true →
  c1 ≠ activeCategory (view w) → c2 ≠ c1 →
  let n := length (inflight w) in
  (∃ w', steps w [clickCategory c1; clickCategory c2;
                  settle n (resolved_names l1); settle n (resolved_names l2)] = Some w'
     ∧ activeCategory (view w') = c2 ∧ prompts (view w') = l2)
  ∧ (∃ w', steps w [clickCategory c1; clickCategory c2;
                    settle n (rejected e); settle n (resolved_names l2)] = Some w'
     ∧ activeCategory (view w') = c2 ∧ prompts (view w') = l2)
  ∧ (∃ w', steps w [clickCategory c1; clickCategory c2;
                    settle (S n) (resolved_names l2); settle n (resolved_names l1)] = Some w'
     ∧ activeCategory (view w') = c2 ∧ prompts (view w') = l1).
Proof.
  intros Hc1 Hc2 Ht1 Ht2 Hne1 Hne2 n.
  destruct (click_other_category w c1) as (wa & Ha & Hcats & Hact & _ & _ & Hfa);
    [done..|].
  destruct (click_other_category wa c2) as (wb & Hb & Hcatsb & Hactb & _ & _ & Hfb);
    [by rewrite Hcats | by rewrite Hact | done |].
  rewrite Hfa in Hfb.
  cbn [steps]. rewrite Ha, Hb. split; [|split].
  - destruct (list_arrives wb (inflight w) (suspensions (loadPrompts c2)) c1 l1)
      as (wc & Hc & _ & Hactc & _ & Hfc); [by rewrite Hfb, <- app_assoc|].
    fold n in Hc. rewrite Hc.
    destruct (list_arrives wc (inflight w) [] c2 l2)
      as (wd & Hd & Hp & Hactd & _ & _); [done|].
    fold n in Hd. rewrite Hd. exists wd. by rewrite Hactd, Hactc.
  - destruct (list_fails wb (inflight w) (suspensions (loadPrompts c2)) c1 e)
      as (wc & Hc & _ & Hactc & _ & Hfc); [by rewrite Hfb, <- app_assoc|].
    fold n in Hc. rewrite Hc.
    destruct (list_arrives wc (inflight w) [] c2 l2)
      as (wd & Hd & Hp & Hactd & _ & _); [done|].
    fold n in Hd. rewrite Hd. exists wd. by rewrite Hactd, Hactc.
  - destruct (list_arrives wb (inflight w ++ suspensions (loadPrompts c1)) [] c2 l2)
      as (wc & Hc & _ & Hactc & _ & Hfc); [done|].
    rewrite length_app in Hc. change (length (suspensions _)) with 1%nat in Hc.
    rewrite Nat.add_1_r in Hc. fold n in Hc. rewrite Hc.
    rewrite app_nil_r in Hfc.
    destruct (list_arrives wc (inflight w) [] c1 l1)
      as (wd & Hd & Hp & Hactd & _ & _); [done|].
    fold n in Hd. rewrite Hd. exists wd. by rewrite Hactd, Hactc.
Qed.

(** ** The protected category *)

Lemma isSystem_true (s : State) : isSystem s = true ↔ activeCategory s = str "System".
Proof. unfold isSystem, strict_eq. apply bool_decide_eq_true. Qed.

(** C2, as the code has it: [handleSave] makes the call exactly when a
    template is selected, with the active category whatever it is; the
    protected category is kept out by the rendering.  The Save button is on
    the page only with a selected template and a category other than
    [System], so a click on it never writes to [System], and under [System]
    neither the button nor a writable editor is offered. *)
Theorem save_guard_is_in_the_rendering :
  (∀ s, request <$> suspensions (handleSave s) =
        match selectedPrompt s with
        | Some sel =>
            if truthy sel
            then [savePromptContent (activeCategory s) sel (content s)] else []
        | None => []
        end)
  ∧ (∀ w w', step w clickSave = Some w' →
       ∃ sel, selectedPrompt (view w) = Some sel ∧ truthy sel = true
         ∧ activeCategory (view w) ≠ str "System"
         ∧ request <$> inflight w' =
             (request <$> inflight w)
             ++ [savePromptContent (activeCategory (view w)) sel (content (view w))])
  ∧ (∀ w text, activeCategory (view w) = str "System" →
       step w clickSave = None ∧ step w (changeContent text) = None).
Proof.
  split; [apply handleSave_suspensions|]. split.
  - intros w w' Hstep. unfold step in Hstep. cbn [rendered handler] in Hstep.
    destruct (truthy_opt (selectedPrompt (view w))) eqn:Hsel; [|done].
    destruct (isSystem (view w)) eqn:Hsys; [done|].
    destruct (saving (view w)); [done|]. simpl in Hstep.
    injection Hstep as <-.
    destruct (selectedPrompt (view w)) as [sel|] eqn:Hsel'; [|done].
    exists sel. split; [done|]. split; [done|]. split.
    { intros Hcat%isSystem_true. congruence. }
    unfold flush_effects.
    assert (Hview : activeCategory (view (run (handleSave (view w)) w))
                    = activeCategory (view w)).
    { unfold handleSave. rewrite Hsel'. simpl in Hsel. by rewrite Hsel. }
    rewrite bool_decide_eq_true_2 by done.
    rewrite run_inflight, fmap_app, handleSave_suspensions, Hsel'.
    simpl in Hsel. by rewrite Hsel.
  - intros w text Hcat%isSystem_true. unfold step. cbn [rendered].
    rewrite Hcat. by rewrite !andb_false_r.
Qed.

(** ** Calls in flight *)

(** While a save is in flight the Save button is disabled. *)
Lemma save_disables_save (w w' : World) :
  step w clickSave = Some w' → saving (view w') = true ∧ step w' clickSave = None.
Proof.
  intros Hstep. unfold step in Hstep. cbn [rendered handler] in Hstep.
  destruct (truthy_opt (selectedPrompt (view w))) eqn:Hsel; [|done].
  destruct (isSystem (view w)) eqn:Hsys; [done|].
  destruct (saving (view w)); [done|]. simpl in Hstep. injection Hstep as <-.
  destruct (selectedPrompt (view w)) as [sel|] eqn:Hsel'; [|done].
  simpl in Hsel. unfold handleSave, flush_effects. rewrite Hsel', Hsel. simpl.
  rewrite bool_decide_eq_true_2 by done. split; [done|].
  unfold step. simpl. by rewrite andb_false_r.
Qed.

(** C8, at the Apply button: it stays enabled while a [saveConfig] call is
    in flight.  With [a.txt] open, two clicks in a row put two applies of
    the same template in flight together, also with an edit between them,
    and [saving] is never set.  The Save button is disabled by its own
    call: a second click on Save is not possible. *)
Theorem apply_is_not_guarded :
  (∃ w', steps (mount (Some ∅)) (opened_history ++ [clickApply; clickApply]) = Some w'
     ∧ request <$> inflight w' =
         [saveConfig (apply_config (str "Translate") (str "a.txt") (str "Hello World") ∅);
          saveConfig (apply_config (str "Translate") (str "a.txt") (str "Hello World") ∅)]
     ∧ saving (view w') = false)
  ∧ (∃ w', steps (mount (Some ∅))
             (opened_history ++ [clickApply; changeContent (str "Bye"); clickApply])
           = Some w'
     ∧ request <$> inflight w' =
         [saveConfig (apply_config (str "Translate") (str "a.txt") (str "Hello World") ∅);
          saveConfig (apply_config (str "Translate") (str "a.txt") (str "Bye") ∅)])
  ∧ steps (mount (Some ∅)) (opened_history ++ [clickSave; clickSave]) = None.
Proof.
  rewrite !steps_app, opened_history_world.
  split; [eexists; split; [by vm_compute|by vm_compute]|].
  split; [eexists; split; [by vm_compute|by vm_compute]|]. by vm_compute.
Qed.

(** ** Processes that keep to a discipline *)

Section Obeys.

Variable okc : Cmd → bool.
Variable okr : Request → bool.

Lemma obeys_seq (p k : Proc) :
  obeys okc okr p → obeys okc okr k → obeys okc okr (seq p k).
Proof.
  intros Hp Hk. induction p as [|e|c p IH|r f IH|a _ p IH]; simpl in *.
  - done.
  - done.
  - destruct Hp. by split; [|apply IH].
  - destruct Hp as [? Hp]. split; [done|]. intros x. by apply IH.
  - destruct Hp. by split; [|apply IH].
Qed.

Lemma obeys_try_catch (p : Proc) (h : Error → Proc) :
  obeys okc okr p → (∀ e, obeys okc okr (h e)) → obeys okc okr (try_catch p h).
Proof.
  intros Hp Hh. induction p as [|e|c p IH|r f IH|a _ p IH]; simpl in *.
  - done.
  - done.
  - destruct Hp. by split; [|apply IH].
  - destruct Hp as [? Hp]. split; [done|]. intros x. by apply IH.
  - destruct Hp. by split; [|apply IH].
Qed.

Lemma obeys_try_finally (p f : Proc) :
  obeys okc okr p → obeys okc okr f → obeys okc okr (try_finally p f).
Proof.
  intros Hp Hf. induction p as [|e|c p IH|r g IH|a _ p IH]; simpl in *.
  - done.
  - by apply obeys_seq.
  - destruct Hp. by split; [|apply IH].
  - destruct Hp as [? Hp]. split; [done|]. intros x. by apply IH.
  - destruct Hp. by split; [|apply IH].
Qed.

Lemma obeys_await (r : Request) (k : Answer r → Proc) :
  okr r = true → (∀ v, obeys okc okr (k v)) → obeys okc okr (await r k).
Proof. intros Hr Hk. split; [done|]. by intros [e|v]; simpl. Qed.

(** The handlers that neither touch the configuration nor [saving] keep
    to every discipline that allows the rest. *)
Hypothesis okc_plain :
  ∀ c, writes_config c = false → touches_saving c = false → okc c = true.
Hypothesis okr_plain : ∀ r, persists_config r = false → okr r = true.

Lemma obeys_loadPrompts (cat : jsstring) : obeys okc okr (loadPrompts cat).
Proof.
  split; [by apply okc_plain|]. apply obeys_try_finally.
  - apply obeys_try_catch.
    + apply obeys_await; [by apply okr_plain|]. intros l.
      by split; [apply okc_plain|].
    + intros e. by split; [apply okc_plain|].
  - by split; [apply okc_plain|].
Qed.

Lemma obeys_loadPromptContent (s : State) (filename : jsstring) :
  obeys okc okr (loadPromptContent s filename).
Proof.
  split; [by apply okc_plain|]. apply obeys_try_finally.
  - apply obeys_try_catch.
    + apply obeys_await; [by apply okr_plain|]. intros data.
      by repeat (split; [by apply okc_plain|]).
    + intros e. by split; [apply okc_plain|].
  - by split; [apply okc_plain|].
Qed.

Lemma obeys_loadCategories (s : State) : obeys okc okr (loadCategories s).
Proof.
  apply obeys_try_catch.
  - apply obeys_await; [by apply okr_plain|]. intros cats.
    split; [by apply okc_plain|].
    destruct (_ && _); [|done]. by split; [apply okc_plain|].
  - intros e. by split; [apply okc_plain|].
Qed.

Lemma obeys_handleCreate (s : State) : obeys okc okr (handleCreate s).
Proof.
  unfold handleCreate. destruct (negb _); [done|]. apply obeys_try_catch.
  - apply obeys_await; [by apply okr_plain|]. intros _.
    apply obeys_seq; [apply obeys_loadPrompts|].
    do 2 (split; [by apply okc_plain|]).
    split; [apply obeys_loadPromptContent | done].
  - intros e. by split; [apply okc_plain|].
Qed.

Lemma obeys_effectActiveCategory (s : State) :
  obeys okc okr (effectActiveCategory s).
Proof.
  unfold effectActiveCategory. destruct (truthy _); [|done].
  split; [apply obeys_loadPrompts|]. by do 2 (split; [by apply okc_plain|]).
Qed.

(** The controls other than Save and Apply. *)
Lemma obeys_handler (s : State) (ev : Event) :
  ev ≠ clickApply → ev ≠ clickSave → obeys okc okr (handler s ev).
Proof.
  destruct ev; intros Happly Hsave; try done; cbn [handler];
    try (by split; [apply okc_plain|]).
  - apply obeys_handleCreate.
  - apply obeys_loadPromptContent.
Qed.

(** The calls a disciplined process leaves in flight settle in
    disciplined processes. *)
Lemma obeys_suspensions (p : Proc) :
  obeys okc okr p → Forall (λ q, ∀ x, obeys okc okr (resume q x)) (suspensions p).
Proof.
  induction p as [|e|c p IH|r f _|a IHa p IH]; simpl.
  - done.
  - done.
  - intros [_ Hp]. by apply IH.
  - intros [_ Hf]. by apply Forall_singleton.
  - intros [Ha Hp]. apply Forall_app. by split; [apply IHa | apply IH].
Qed.

End Obeys.

(** ** The Binding Record is a snapshot *)

Lemma quiet_effectActiveCategory (s : State) : quiet (effectActiveCategory s).
Proof. by apply obeys_effectActiveCategory; intros []. Qed.

Lemma quiet_handleSave (s : State) : quiet (handleSave s).
Proof.
  unfold handleSave. destruct (selectedPrompt s) as [sel|]; [|done].
  destruct (negb (truthy sel)); [done|]. split; [done|].
  apply obeys_try_finally; [|done]. apply obeys_try_catch; [|done].
  by apply obeys_await.
Qed.

(** Every control but the Apply button has a handler that leaves the
    configuration alone. *)
Lemma quiet_handler (s : State) (ev : Event) : ev ≠ clickApply → quiet (handler s ev).
Proof.
  intros Hev. destruct ev; try (by apply obeys_handler; [intros []|intros []| |]).
  apply quiet_handleSave.
Qed.

Lemma exec_config (c : Cmd) (w : World) :
  writes_config c = false → config (view (exec c w)) = config (view w).
Proof. by destruct c. Qed.

Lemma exec_trace (c : Cmd) (w : World) : trace (exec c w) = trace w ++ cmd_outputs c.
Proof. destruct c; simpl; by rewrite ?app_nil_r. Qed.

Lemma run_trace (p : Proc) : ∀ w, trace (run p w) = trace w ++ outputs p.
Proof.
  induction p as [|e|c k IH|r k _|a IHa k IHk]; intros w; simpl.
  - by rewrite app_nil_r.
  - done.
  - by rewrite IH, exec_trace, app_assoc.
  - done.
  - by rewrite IHk, IHa, app_assoc.
Qed.

Lemma run_quiet_config (p : Proc) :
  quiet p → ∀ w, config (view (run p w)) = config (view w).
Proof.
  induction p as [|e|c p IH|r f _|a IHa p IH]; simpl.
  - done.
  - done.
  - intros [Hc Hp] w. rewrite (IH Hp). apply exec_config.
    by apply negb_true_iff.
  - done.
  - intros [Ha Hp] w. by rewrite (IH Hp), (IHa Ha).
Qed.

(** A quiet process asks for no [saveConfig]. *)
Lemma quiet_outputs (p : Proc) :
  quiet p → Forall (λ o, ∀ c, o ≠ requested (saveConfig c)) (outputs p).
Proof.
  induction p as [|e|c p IH|r f _|a IHa p IH]; simpl.
  - done.
  - intros _. by apply Forall_singleton.
  - intros [_ Hp]. apply Forall_app. split; [|by apply IH].
    destruct c; simpl; by repeat constructor.
  - intros [Hr _]. apply Forall_singleton. intros c [= ->]. done.
  - intros [Ha Hp]. apply Forall_app. by split; [apply IHa | apply IH].
Qed.

Lemma config_untouched_refl (w : World) : config_untouched w w.
Proof. split; [done|]. exists []. by rewrite app_nil_r. Qed.

Lemma config_untouched_trans (w1 w2 w3 : World) :
  config_untouched w1 w2 → config_untouched w2 w3 → config_untouched w1 w3.
Proof.
  intros [Hc (t & Ht & Hq)] [Hc' (t' & Ht' & Hq')]. split; [congruence|].
  exists (t ++ t'). split; [by rewrite Ht', Ht, app_assoc|]. by apply Forall_app.
Qed.

Lemma run_Quiet (p : Proc) (w : World) :
  quiet p → Quiet w → Quiet (run p w) ∧ config_untouched w (run p w).
Proof.
  intros Hp Hw. split.
  - unfold Quiet. rewrite run_inflight. apply Forall_app. split; [done|].
    by apply obeys_suspensions.
  - split; [by apply run_quiet_config|]. exists (outputs p).
    split; [apply run_trace | by apply quiet_outputs].
Qed.

Lemma flush_effects_Quiet (before : State) (w : World) :
  Quiet w →
  Quiet (flush_effects before w) ∧ config_untouched w (flush_effects before w).
Proof.
  intros Hw. unfold flush_effects. case_bool_decide.
  - split; [done | apply config_untouched_refl].
  - apply run_Quiet; [apply quiet_effectActiveCategory | done].
Qed.

(** One event other than a click on Apply, in a world where no call in
    flight will install or persist a configuration. *)
Lemma step_Quiet (w w' : World) (ev : Event) :
  Quiet w → ev ≠ clickApply → step w ev = Some w' →
  Quiet w' ∧ config_untouched w w'.
Proof.
  intros Hw Hev Hstep.
  assert (Huser : (if rendered (view w) ev
                   then Some (flush_effects (view w) (run (handler (view w) ev) w))
                   else None) = Some w' →
                  Quiet w' ∧ config_untouched w w').
  { destruct (rendered _ _); [|done]. intros [= <-].
    destruct (run_Quiet (handler (view w) ev) w) as [HQ Hcfg];
      [by apply quiet_handler | done |].
    destruct (flush_effects_Quiet (view w) _ HQ) as [HQ' Hcfg'].
    split; [done|]. by eapply config_untouched_trans. }
  destruct ev; try exact (Huser Hstep). clear Huser. unfold step in Hstep.
  destruct (inflight w !! i) as [p|] eqn:Hp; [|done].
  destruct (fit (request p) reply) as [x|]; [|done]. injection Hstep as <-.
  assert (Hquiet : quiet (resume p x)).
  { unfold Quiet in Hw. rewrite Forall_lookup in Hw. by apply (Hw i p). }
  destruct (run_Quiet (resume p x) (take_inflight i w)) as [HQ Hcfg];
    [done | by apply Forall_delete |].
  destruct (flush_effects_Quiet (view w) _ HQ) as [HQ' Hcfg'].
  split; [done|]. by eapply config_untouched_trans.
Qed.

Lemma steps_Quiet (evs : list Event) :
  ∀ w w', Quiet w → clickApply ∉ evs → steps w evs = Some w' →
          Quiet w' ∧ config_untouched w w'.
Proof.
  induction evs as [|ev evs IH]; intros w w' Hw Hevs Hsteps; simpl in Hsteps.
  - injection Hsteps as <-. split; [done | apply config_untouched_refl].
  - apply not_elem_of_cons in Hevs as [Hev Hevs].
    destruct (step w ev) as [w1|] eqn:Hstep; [|done].
    destruct (step_Quiet w w1 ev) as [Hw1 Hcfg1]; [done..|].
    destruct (IH w1 w' Hw1 Hevs Hsteps) as [Hw' Hcfg'].
    split; [done|]. by eapply config_untouched_trans.
Qed.

Lemma handleApply_apply_in_flight (s : State) :
  Forall apply_in_flight (suspensions (handleApply s)).
Proof.
  unfold handleApply. destruct (selectedPrompt s) as [sel|]; [|done].
  destruct (config s) as [cfg|]; [|done]. destruct (negb (truthy sel)); [done|].
  apply Forall_singleton. split; [done|]. by intros [e|[]].
Qed.

Lemma run_Known (p : Proc) (w : World) :
  Forall (λ q, settles_quietly q ∨ apply_in_flight q) (suspensions p) →
  Known w → Known (run p w).
Proof. intros Hp Hw. unfold Known. rewrite run_inflight. by apply Forall_app. Qed.

Lemma run_quiet_Known (p : Proc) (w : World) : quiet p → Known w → Known (run p w).
Proof.
  intros Hp Hw. apply run_Known; [|done].
  eapply Forall_impl; [by apply obeys_suspensions|]. intros q Hq. by left.
Qed.

Lemma flush_effects_Known (before : State) (w : World) :
  Known w → Known (flush_effects before w).
Proof.
  intros Hw. unfold flush_effects. case_bool_decide; [done|].
  apply run_quiet_Known; [apply quiet_effectActiveCategory | done].
Qed.

Lemma step_Known (w w' : World) (ev : Event) : Known w → step w ev = Some w' → Known w'.
Proof.
  intros Hw Hstep.
  assert (Huser : ev ≠ clickApply →
                  (if rendered (view w) ev
                   then Some (flush_effects (view w) (run (handler (view w) ev) w))
                   else None) = Some w' → Known w').
  { intros Hev. destruct (rendered _ _); [|done]. intros [= <-].
    apply flush_effects_Known, run_quiet_Known; [by apply quiet_handler | done]. }
  destruct ev; try exact (Huser ltac:(discriminate) Hstep); clear Huser.
  - unfold step in Hstep. destruct (rendered _ _); [|done]. injection Hstep as <-.
    apply flush_effects_Known, run_Known; [|done]. cbn [handler].
    eapply Forall_impl; [apply handleApply_apply_in_flight|]. by right.
  - unfold step in Hstep.
    destruct (inflight w !! i) as [p|] eqn:Hp; [|done].
    destruct (fit (request p) reply) as [x|]; [|done]. injection Hstep as <-.
    apply flush_effects_Known.
    assert (Hrest : Known (take_inflight i w)) by (by apply Forall_delete).
    unfold Known in Hw. rewrite Forall_lookup in Hw.
    destruct (Hw i p Hp) as [Hq|[_ Hq]].
    + by apply run_quiet_Known.
    + apply run_Known; [|done]. by rewrite Hq.
Qed.

Lemma steps_Known (evs : list Event) :
  ∀ w w', Known w → steps w evs = Some w' → Known w'.
Proof.
  induction evs as [|ev evs IH]; intros w w' Hw Hsteps; simpl in Hsteps.
  - by injection Hsteps as <-.
  - destruct (step w ev) as [w1|] eqn:Hstep; [|done].
    eapply IH; [|done]. by eapply step_Known.
Qed.

Lemma mount_Known (cfg : option Config) : Known (mount cfg).
Proof.
  apply run_quiet_Known; [|by apply Forall_nil].
  split; [|done]. by apply obeys_loadCategories; intros [].
Qed.

(** Without a [saveConfig] in flight, no call in flight will install a
    configuration. *)
Lemma Known_Quiet (w : World) :
  Known w → Forall (λ q, ∀ c, request q ≠ saveConfig c) (inflight w) → Quiet w.
Proof.
  unfold Known, Quiet. intros Hw Hreq. rewrite Forall_forall in *.
  intros q Hq. destruct (Hw q Hq) as [|[Hc _]]; [done|].
  specialize (Hreq q Hq). simpl in Hreq.
  destruct (request q) as [| | | |cfg]; try done. by destruct (Hreq cfg).
Qed.

(** C4: in a world the page can reach, with no apply in flight, the
    configuration, and with it the Binding Record that the last apply wrote
    (identifier and content), stays what it is through every sequence of
    events without a click on Apply: edits of the buffer, saves and their
    outcomes, and any other.  No [saveConfig] is made either, so the
    persisted configuration is not written. *)
Theorem binding_record_is_snapshot
    (cfg : option Config) (history evs : list Event) (w w' : World) :
  steps (mount cfg) history = Some w →
  Forall (λ q, ∀ c, request q ≠ saveConfig c) (inflight w) →
  clickApply ∉ evs →
  steps w evs = Some w' →
  config (view w') = config (view w)
  ∧ ∃ t, trace w' = trace w ++ t
       ∧ Forall (λ o, ∀ c, o ≠ requested (saveConfig c)) t.
Proof.
  intros Hreach Hno Hevs Hsteps.
  assert (Hw : Quiet w).
  { apply Known_Quiet; [|done]. eapply steps_Known; [apply mount_Known | done]. }
  by destruct (steps_Quiet evs w w' Hw Hevs Hsteps).
Qed.

(** ** One save at a time *)

Section AtMostOne.

Context {A : Type} (P : A → Prop).

Lemma at_most_one_not_Forall (l : list A) : Forall P l → at_most_one_not P l.
Proof.
  intros Hl i j x y Hi _ _. left. rewrite Forall_lookup in Hl. by apply (Hl i).
Qed.

Lemma at_most_one_not_app (l new : list A) :
  at_most_one_not P l → Forall P new → at_most_one_not P (l ++ new).
Proof.
  intros Hl Hnew i j x y Hi Hj Hne. rewrite Forall_lookup in Hnew.
  apply lookup_app_Some in Hi as [Hi|[_ Hi]]; [|left; by apply (Hnew _ _ Hi)].
  apply lookup_app_Some in Hj as [Hj|[_ Hj]]; [|right; by apply (Hnew _ _ Hj)].
  by apply (Hl i j).
Qed.

Lemma at_most_one_not_snoc (l : list A) (x : A) :
  Forall P l → at_most_one_not P (l ++ [x]).
Proof.
  intros Hl i j y z Hi Hj Hne. rewrite Forall_lookup in Hl.
  apply lookup_app_Some in Hi as [Hi|[Hli Hi]]; [left; by apply (Hl _ _ Hi)|].
  apply lookup_app_Some in Hj as [Hj|[Hlj Hj]]; [right; by apply (Hl _ _ Hj)|].
  apply lookup_lt_Some in Hi, Hj. simpl in Hi, Hj. lia.
Qed.

Lemma at_most_one_not_delete (l : list A) (i : nat) :
  at_most_one_not P l → at_most_one_not P (delete i l).
Proof.
  intros Hl j k x y Hj Hk Hne.
  destruct (decide (j < i)%nat) as [Hji|Hji], (decide (k < i)%nat) as [Hki|Hki].
  - rewrite list_lookup_delete_lt in Hj, Hk by done. by apply (Hl j k).
  - rewrite list_lookup_delete_lt in Hj by done.
    rewrite list_lookup_delete_ge in Hk by lia. apply (Hl j (S k)); [done..|lia].
  - rewrite list_lookup_delete_ge in Hj by lia.
    rewrite list_lookup_delete_lt in Hk by done. apply (Hl (S j) k); [done..|lia].
  - rewrite list_lookup_delete_ge in Hj, Hk by lia.
    apply (Hl (S j) (S k)); [done..|lia].
Qed.

(** What is left when the element at [i] goes was elsewhere before. *)
Lemma lookup_delete_elsewhere (l : list A) (i j : nat) (x : A) :
  delete i l !! j = Some x → ∃ j', j' ≠ i ∧ l !! j' = Some x.
Proof.
  intros Hj. destruct (decide (j < i)%nat) as [Hji|Hji].
  - rewrite list_lookup_delete_lt in Hj by done. exists j. split; [lia | done].
  - rewrite list_lookup_delete_ge in Hj by lia. exists (S j). split; [lia | done].
Qed.

End AtMostOne.

Lemma calm_effectActiveCategory (s : State) : calm (effectActiveCategory s).
Proof. by apply obeys_effectActiveCategory; intros []. Qed.

Lemma calm_handleApply (s : State) : calm (handleApply s).
Proof.
  unfold handleApply. destruct (selectedPrompt s) as [sel|]; [|done].
  destruct (config s) as [cfg|]; [|done]. destruct (negb (truthy sel)); [done|].
  apply obeys_try_catch; [|done]. by apply obeys_await.
Qed.

(** Every control but the Save button has a handler that leaves [saving]
    alone. *)
Lemma calm_handler (s : State) (ev : Event) : ev ≠ clickSave → calm (handler s ev).
Proof.
  intros Hev. destruct ev; try (by apply obeys_handler; [intros []|intros []| |]).
  apply calm_handleApply.
Qed.

Lemma exec_saving (c : Cmd) (w : World) :
  touches_saving c = false → saving (view (exec c w)) = saving (view w).
Proof. by destruct c. Qed.

Lemma run_calm_saving (p : Proc) :
  calm p → ∀ w, saving (view (run p w)) = saving (view w).
Proof.
  induction p as [|e|c p IH|r f _|a IHa p IH]; simpl.
  - done.
  - done.
  - intros [Hc Hp] w. rewrite (IH Hp). apply exec_saving.
    by apply negb_true_iff.
  - done.
  - intros [Ha Hp] w. by rewrite (IH Hp), (IHa Ha).
Qed.

Lemma run_calm_OneSave (p : Proc) (w : World) :
  calm p → OneSave w → OneSave (run p w).
Proof.
  intros Hp (Hall & Hone & Hoff).
  assert (Hnew : Forall settles_calmly (suspensions p)) by by apply obeys_suspensions.
  unfold OneSave. rewrite run_inflight, run_calm_saving by done.
  split; [|split].
  - apply Forall_app. split; [done|]. eapply Forall_impl; [done|]. by left.
  - by apply at_most_one_not_app.
  - intros Hs. apply Forall_app. by split; [apply Hoff|].
Qed.

Lemma flush_effects_OneSave (before : State) (w : World) :
  OneSave w → OneSave (flush_effects before w).
Proof.
  intros Hw. unfold flush_effects. case_bool_decide; [done|].
  apply run_calm_OneSave; [apply calm_effectActiveCategory | done].
Qed.

(** What a click on Save leaves behind. *)
Lemma handleSave_run (s : State) :
  truthy_opt (selectedPrompt s) = true →
  ∃ q, suspensions (handleSave s) = [q] ∧ last_leg q
       ∧ ∀ w, saving (view (run (handleSave s) w)) = true.
Proof.
  intros Hsel. unfold handleSave.
  destruct (selectedPrompt s) as [sel|]; [|done]. simpl in Hsel. rewrite Hsel.
  eexists. split; [done|]. split; [|done]. by intros [e|[]].
Qed.

(** A save in flight will release [saving]. *)
Lemma handleSave_not_calm (s : State) (q : Pending) :
  q ∈ suspensions (handleSave s) → ¬ settles_calmly q.
Proof.
  unfold handleSave. destruct (selectedPrompt s) as [sel|]; [|by intros ?%elem_of_nil].
  destruct (negb (truthy sel)); [by intros ?%elem_of_nil|].
  intros ->%list_elem_of_singleton Hcalm.
  specialize (Hcalm (inl TransportFailure)). simpl in Hcalm.
  by destruct Hcalm as [_ [? _]].
Qed.

Lemma step_OneSave (w w' : World) (ev : Event) :
  OneSave w → step w ev = Some w' → OneSave w'.
Proof.
  intros Hw Hstep.
  assert (Huser : ev ≠ clickSave →
                  (if rendered (view w) ev
                   then Some (flush_effects (view w) (run (handler (view w) ev) w))
                   else None) = Some w' → OneSave w').
  { intros Hev. destruct (rendered _ _); [|done]. intros [= <-].
    apply flush_effects_OneSave, run_calm_OneSave; [by apply calm_handler | done]. }
  destruct ev; try exact (Huser ltac:(discriminate) Hstep); clear Huser.
  - (* a click on Save: the button is enabled, so [saving] is off *)
    unfold step in Hstep. cbn [rendered handler] in Hstep.
    destruct (truthy_opt (selectedPrompt (view w))) eqn:Hsel; [|done].
    destruct (isSystem (view w)); [done|].
    destruct (saving (view w)) eqn:Hsaving; [done|]. injection Hstep as <-.
    apply flush_effects_OneSave.
    destruct Hw as (_ & _ & Hoff). specialize (Hoff Hsaving).
    destruct (handleSave_run (view w) Hsel) as (q & Hq & Hlast & Hon).
    unfold OneSave. rewrite run_inflight, Hq, Hon. split; [|split].
    + apply Forall_app. split; [|by apply Forall_singleton; right].
      eapply Forall_impl; [done|]. by left.
    + by apply at_most_one_not_snoc.
    + done.
  - (* a call settles *)
    unfold step in Hstep.
    destruct (inflight w !! i) as [p|] eqn:Hp; [|done].
    destruct (fit (request p) reply) as [x|]; [|done]. injection Hstep as <-.
    apply flush_effects_OneSave. destruct Hw as (Hall & Hone & Hoff).
    assert (Hrest : OneSave (take_inflight i w)).
    { split; [by apply Forall_delete|]. split; [by apply at_most_one_not_delete|].
      intros Hs. by apply Forall_delete, Hoff. }
    rewrite Forall_lookup in Hall. destruct (Hall i p Hp) as [Hcalm|Hlast].
    { by apply run_calm_OneSave. }
    unfold OneSave. rewrite run_inflight, Hlast, app_nil_r.
    destruct Hrest as (Hall' & Hone' & _). split; [done|]. split; [done|].
    intros Hs. apply Forall_lookup. intros j q Hj.
    apply lookup_delete_elsewhere in Hj as (j' & Hne & Hj').
    destruct (Hone i j' p q Hp Hj' ltac:(done)) as [Hcalm|Hcalm]; [|done].
    rewrite run_calm_saving in Hs by done.
    specialize (Hoff Hs). rewrite Forall_lookup in Hoff. by apply (Hoff j').
Qed.

Lemma steps_OneSave (evs : list Event) :
  ∀ w w', OneSave w → steps w evs = Some w' → OneSave w'.
Proof.
  induction evs as [|ev evs IH]; intros w w' Hw Hsteps; simpl in Hsteps.
  - by injection Hsteps as <-.
  - destruct (step w ev) as [w1|] eqn:Hstep; [|done].
    eapply IH; [|done]. by eapply step_OneSave.
Qed.

Lemma mount_OneSave (cfg : option Config) : OneSave (mount cfg).
Proof.
  apply run_calm_OneSave.
  - split; [|done]. by apply obeys_loadCategories; intros [].
  - split; [done|]. split; [|done]. by apply at_most_one_not_Forall.
Qed.

(** The Save side of C8: in every world the page can reach, two calls in
    flight that were made by [handleSave] are one and the same call, and a
    click on Save is accepted only when no such call is in flight. *)
Lemma saves_never_overlap (cfg : option Config) (history : list Event) (w : World) :
  steps (mount cfg) history = Some w →
  (∀ i j q q' s s',
     inflight w !! i = Some q → inflight w !! j = Some q' →
     q ∈ suspensions (handleSave s) → q' ∈ suspensions (handleSave s') → i = j)
  ∧ (∀ w' q s, step w clickSave = Some w' →
       q ∈ inflight w → q ∉ suspensions (handleSave s)).
Proof.
  intros Hreach.
  assert (Hw : OneSave w) by (eapply steps_OneSave; [apply mount_OneSave | done]).
  destruct Hw as (_ & Hone & Hoff). split.
  - intros i j q q' s s' Hi Hj Hq Hq'.
    destruct (decide (i = j)) as [|Hne]; [done|].
    destruct (Hone i j q q' Hi Hj Hne) as [Hcalm|Hcalm];
      by eapply handleSave_not_calm in Hcalm.
  - intros w' q s Hstep Hq Hsave. unfold step in Hstep. cbn [rendered] in Hstep.
    destruct (saving (view w)) eqn:Hsaving; [by rewrite andb_false_r in Hstep|].
    specialize (Hoff eq_refl). rewrite Forall_forall in Hoff.
    by eapply handleSave_not_calm; [|apply Hoff].
Qed.

(** * More of the page *)

Lemma view_exec (c : Cmd) (w : World) : view (exec c w) = assign c (view w).
Proof. by destruct c. Qed.

Lemma state_eta (s : State) :
  mkState (categories s) (activeCategory s) (prompts s) (selectedPrompt s)
    (content s) (loading s) (saving s) (filter s) (isCreating s) (newName s)
    (config s) = s.
Proof. by destruct s. Qed.

Lemma world_eta (w : World) :
  {| view := view w; inflight := inflight w; trace := trace w |} = w.
Proof. by destruct w. Qed.

(** ** Choosing a category *)

(** The world after a click on another category. *)
Lemma click_category_world (w : World) (c : jsstring) :
  c ∈ categories (view w) → c ≠ activeCategory (view w) → truthy c = true →
  step w (clickCategory c) =
  Some (run (Fork (loadPrompts c) (setSelectedPrompt None ;; setContent [] ;; Done))
            (exec (setActiveCategory c) w)).
Proof.
  intros Hin Hne Ht. unfold step. cbn [rendered handler].
  rewrite bool_decide_eq_true_2 by done. f_equal.
  unfold flush_effects, effectActiveCategory. simpl.
  rewrite bool_decide_eq_false_2 by done. by rewrite Ht.
Qed.

(** The world after a click on a category whose name is the empty string,
    when another one is active. *)
Lemma click_unnamed_category_world (w : World) :
  [] ∈ categories (view w) → [] ≠ activeCategory (view w) →
  step w (clickCategory []) = Some (exec (setActiveCategory []) w).
Proof.
  intros Hin Hne. unfold step. cbn [rendered handler].
  rewrite bool_decide_eq_true_2 by done. f_equal.
  unfold flush_effects, effectActiveCategory. simpl.
  by rewrite bool_decide_eq_false_2.
Qed.

(** X1: a click on a category other than the active one makes it active.
    When the name of the category is not the empty string, the click also
    drops the selection and empties the edit buffer without asking, turns
    [loading] on and asks for the list of that category; the list on
    display, the draft and the other flags stay as they are.  When the name
    is the empty string (the effect tests [if (activeCategory)]), the
    category becomes active and nothing else happens: the selection and the
    edit buffer are kept and no list is asked for. *)
Theorem select_category (w : World) (c : jsstring) :
  c ∈ categories (view w) → c ≠ activeCategory (view w) →
  ∃ w', step w (clickCategory c) = Some w'
    ∧ (c ≠ [] →
         view w' =
           assign (setContent [])
             (assign (setSelectedPrompt None)
                (assign (setLoading true) (assign (setActiveCategory c) (view w))))
         ∧ request <$> inflight w' = (request <$> inflight w) ++ [listPrompts c]
         ∧ trace w' = trace w ++ [requested (listPrompts c)])
    ∧ (c = [] →
         view w' = assign (setActiveCategory []) (view w)
         ∧ inflight w' = inflight w
         ∧ trace w' = trace w).
Proof.
  intros Hin Hne. destruct c as [|a c].
  - rewrite click_unnamed_category_world by done.
    eexists. split; [done|]. split; [done|]. intros _. by destruct w.
  - rewrite click_category_world by done.
    eexists. split; [done|]. split; [|done]. intros _. simpl. by rewrite fmap_app.
Qed.

(** X2: a click on the category that is already active changes nothing: no
    list is asked for, the selection and the edit buffer are kept. *)
Theorem reselect_active_category (w : World) :
  activeCategory (view w) ∈ categories (view w) →
  step w (clickCategory (activeCategory (view w))) = Some w.
Proof.
  intros Hin. unfold step. cbn [rendered handler].
  rewrite bool_decide_eq_true_2 by done. f_equal.
  unfold flush_effects. simpl. rewrite bool_decide_eq_true_2 by done.
  unfold set_view. by rewrite state_eta, world_eta.
Qed.

(** ** Opening a template *)

(** What [loadPromptContent] leaves in flight. *)
Lemma loadPromptContent_run (s : State) (filename : jsstring) (w : World) :
  ∃ q, suspensions (loadPromptContent s filename) = [q]
    ∧ request q = getPromptContent (activeCategory s) filename
    ∧ run (loadPromptContent s filename) w =
        suspend q (exec (setLoading true) w).
Proof. by eexists. Qed.

(** X3: a click on an entry shown in the file list (a template of the list
    held that passes the filter) turns [loading] on and asks
    for the content of that file in the category of the render.  When the
    content comes, it replaces the edit buffer, whatever was in it, the file
    becomes the selected template, the draft is closed and [loading] goes
    off.  When the call is rejected the error goes to the console, without
    an alert, and nothing changes but [loading], which goes off. *)
Theorem select_template (w : World) (p : jsstring) :
  p ∈ filteredPrompts (view w) →
  let n := length (inflight w) in
  ∃ w1, step w (clickPrompt p) = Some w1
    ∧ view w1 = assign (setLoading true) (view w)
    ∧ request <$> inflight w1 =
        (request <$> inflight w) ++ [getPromptContent (activeCategory (view w)) p]
    ∧ (∀ data, ∃ w2, step w1 (settle n (resolved_text data)) = Some w2
         ∧ view w2 =
             assign (setLoading false)
               (assign (setIsCreating false)
                  (assign (setSelectedPrompt (Some p))
                     (assign (setContent data) (view w1))))
         ∧ inflight w2 = inflight w
         ∧ trace w2 = trace w1)
    ∧ (∀ e, ∃ w2, step w1 (settle n (rejected e)) = Some w2
         ∧ view w2 = assign (setLoading false) (view w)
         ∧ inflight w2 = inflight w
         ∧ trace w2 = trace w1 ++ [logged log_content e]).
Proof.
  intros Hin n. rewrite click_prompt_world by done.
  eexists. split; [done|]. split; [done|]. split. { simpl. by rewrite fmap_app. }
  split.
  - intros data. eexists. split; [subst n; settle_last_call|]. done.
  - intros e. eexists. split; [subst n; settle_last_call|]. done.
Qed.

(** X4: the content asked for under one category lands under another.  The
    operator clicks a file shown in the file list and then another category,
    of a non-empty name, before the content has
    come: the call was made for the old category, and when it resolves the
    file is selected and its content is in the edit buffer although the
    new category is active and its list is still awaited.  If the new
    category is not [System] the Save button is then offered, and a click on
    it writes that content into the new category under the name of the
    file. *)
Theorem content_lands_under_new_category
    (w : World) (p c text : jsstring) :
  p ∈ filteredPrompts (view w) → c ∈ categories (view w) →
  c ≠ activeCategory (view w) → truthy c = true →
  let n := length (inflight w) in
  ∃ w', steps w [clickPrompt p; clickCategory c; settle n (resolved_text text)] = Some w'
    ∧ activeCategory (view w') = c
    ∧ selectedPrompt (view w') = Some p
    ∧ content (view w') = text
    ∧ saving (view w') = saving (view w)
    ∧ request <$> inflight w' = (request <$> inflight w) ++ [listPrompts c]
    ∧ trace w' =
        trace w ++ [requested (getPromptContent (activeCategory (view w)) p);
                    requested (listPrompts c)]
    ∧ (truthy p = true → c ≠ str "System" → saving (view w) = false →
       ∃ w'', step w' clickSave = Some w''
         ∧ request <$> inflight w'' =
             (request <$> inflight w) ++ [listPrompts c; savePromptContent c p text]).
Proof.
  intros Hp Hc Hne Ht n. cbn [steps].
  rewrite click_prompt_world by done.
  rewrite click_category_world by done.
  subst n. erewrite (settle_middle _ (inflight w)); [|simpl; by rewrite <- app_assoc|done].
  eexists. split; [done|].
  unfold flush_effects. simpl. rewrite bool_decide_eq_true_2 by done. simpl.
  do 4 (split; [done|]).
  split. { by rewrite fmap_app. }
  split. { by rewrite <- app_assoc. }
  intros Htp Hsys Hsav. unfold step. cbn [rendered handler]. simpl.
  rewrite Htp, Hsav. unfold isSystem, strict_eq. simpl.
  rewrite bool_decide_eq_false_2 by done. simpl.
  eexists. split; [done|]. unfold flush_effects, handleSave. simpl.
  rewrite Htp. simpl. rewrite bool_decide_eq_true_2 by done. simpl.
  by rewrite !fmap_app, <- app_assoc.
Qed.

(** ** The categories do not come *)

(** X5: when the call for the categories is rejected, the error goes to the
    console and the page stays as it is, with no alert and no further call;
    when it resolves with an empty list, the list of categories is empty,
    no category becomes active and no list of templates is asked for. *)
Theorem categories_fail_or_empty (s : State) (w : World) (i : nat) :
  inflight w !! i = head (suspensions (loadCategories s)) →
  (∀ e, ∃ w', step w (settle i (rejected e)) = Some w'
      ∧ view w' = view w
      ∧ inflight w' = delete i (inflight w)
      ∧ trace w' = trace w ++ [logged log_categories e])
  ∧ (∃ w', step w (settle i (resolved_names [])) = Some w'
      ∧ view w' = assign (setCategories []) (view w)
      ∧ inflight w' = delete i (inflight w)
      ∧ trace w' = trace w).
Proof.
  intros Hi. unfold step. rewrite Hi. simpl. split.
  - intros e. eexists. split; [done|]. unfold flush_effects. simpl.
    by rewrite bool_decide_eq_true_2.
  - eexists. split; [done|]. unfold flush_effects. simpl.
    by rewrite bool_decide_eq_true_2.
Qed.

(** ** Saving while editing *)

(** The world after a click on Save. *)
Lemma click_save_world (w : World) (sel : jsstring) :
  selectedPrompt (view w) = Some sel → truthy sel = true →
  isSystem (view w) = false → saving (view w) = false →
  step w clickSave = Some (run (handleSave (view w)) w).
Proof.
  intros Hsel Ht Hsys Hsav.
  unfold step. cbn [rendered handler]. rewrite Hsel. simpl.
  rewrite Ht, Hsys, Hsav. simpl. f_equal. unfold flush_effects, handleSave.
  rewrite Hsel, Ht. simpl. by rewrite bool_decide_eq_true_2.
Qed.

(** X6: a save sends the edit buffer as it is at the click.  What the
    operator types while the call is in flight stays in the buffer and is
    not part of that save; when the call resolves the page reports the save
    as done and makes no further call. *)
Theorem save_sends_buffer_of_click (w : World) (sel text : jsstring) :
  selectedPrompt (view w) = Some sel → truthy sel = true →
  isSystem (view w) = false → saving (view w) = false →
  let n := length (inflight w) in
  ∃ w', steps w [clickSave; changeContent text; settle n resolved_ok] = Some w'
    ∧ view w' = assign (setSaving false) (assign (setContent text) (view w))
    ∧ inflight w' = inflight w
    ∧ trace w' =
        trace w ++
        [requested (savePromptContent (activeCategory (view w)) sel (content (view w)));
         alerted msg_saved].
Proof.
  intros Hsel Ht Hsys Hsav n. cbn [steps].
  rewrite (click_save_world w sel) by done.
  unfold handleSave. rewrite Hsel, Ht. cbn -[step].
  unfold step at 1. cbn -[step]. rewrite Hsel. cbn -[step].
  unfold isSystem in *. cbn [activeCategory]. rewrite Ht, Hsys. cbn -[step].
  unfold flush_effects at 1. cbn -[step].
  rewrite bool_decide_eq_true_2 by done.
  subst n. erewrite settle_last; [|done..].
  eexists. split; [done|]. unfold flush_effects. simpl.
  rewrite bool_decide_eq_true_2 by done. simpl.
  split; [unfold assign; simpl; by rewrite Hsel|]. by rewrite <- app_assoc.
Qed.

(** ** A create that does not go through *)

(** The world after the draft is submitted. *)
Lemma submit_create_world (w : World) :
  isCreating (view w) = true →
  step w submitCreate = Some (run (handleCreate (view w)) w).
Proof.
  intros Hcreating. unfold step. cbn [rendered handler]. rewrite Hcreating.
  f_equal. unfold flush_effects, handleCreate.
  destruct (negb _); simpl; by rewrite bool_decide_eq_true_2.
Qed.

(** X7: when the save of a new template is rejected the operator is alerted
    that the create failed and the page is as before the submit: the draft
    is still open with the name typed, the list is not asked for, no file is
    selected.  When the save resolves but the refresh of the list is
    rejected, that error goes to the console and the create goes on: the
    list held stays, the draft is closed and the name cleared, and the
    content of the new file is asked for. *)
Theorem create_failures (w : World) (e : Error) :
  isCreating (view w) = true → ¬ whitespace_only (newName (view w)) →
  let cat := activeCategory (view w) in
  let filename := create_filename (newName (view w)) in
  let n := length (inflight w) in
  (∃ w', steps w [submitCreate; settle n (rejected e)] = Some w'
     ∧ view w' = view w
     ∧ inflight w' = inflight w
     ∧ trace w' = trace w ++ [requested (savePromptContent cat filename []);
                              alerted msg_create_failed])
  ∧ (∃ w', steps w [submitCreate; settle n resolved_ok; settle n (rejected e)] = Some w'
     ∧ view w' =
         assign (setLoading true)
           (assign (setNewName []) (assign (setIsCreating false) (view w)))
     ∧ request <$> inflight w' =
         (request <$> inflight w) ++ [getPromptContent cat filename]
     ∧ trace w' = trace w ++ [requested (savePromptContent cat filename []);
                              requested (listPrompts cat);
                              logged log_prompts e;
                              requested (getPromptContent cat filename)]).
Proof.
  intros Hcreating Hname cat filename n. rewrite <- trim_nil in Hname.
  cbn [steps]. rewrite submit_create_world by done.
  unfold handleCreate. fold cat filename.
  destruct (trim (newName (view w))) as [|c t] eqn:Htrim; [done|].
  cbn -[step]. subst n. split.
  - erewrite settle_last; [|done..]. eexists. split; [done|].
    unfold flush_effects. simpl. rewrite bool_decide_eq_true_2 by done.
    simpl. by rewrite <- app_assoc.
  - erewrite settle_last; [|done..]. unfold flush_effects at 1. cbn -[step].
    rewrite bool_decide_eq_true_2 by done.
    erewrite settle_last; [|done..]. eexists. split; [done|].
    unfold flush_effects. simpl. rewrite bool_decide_eq_true_2 by done.
    simpl. split; [done|]. split; [by rewrite fmap_app|].
    by rewrite <- !app_assoc.
Qed.

(** ** Applying through the button *)

Lemma isSelectionTarget_cases (s : State) :
  isSelectionTarget s = true ↔
  activeCategory s = str "Translate" ∨ activeCategory s = str "Polishing".
Proof.
  unfold isSelectionTarget, includes. rewrite bool_decide_eq_true.
  rewrite !elem_of_cons, elem_of_nil. tauto.
Qed.

Lemma isSelectionTarget_not_System (s : State) :
  isSelectionTarget s = true → isSystem s = false.
Proof.
  intros [H|H]%isSelectionTarget_cases; unfold isSystem, strict_eq;
    by rewrite H, bool_decide_eq_false_2.
Qed.

(** The world after a click on Apply. *)
Lemma click_apply_world (w : World) :
  truthy_opt (selectedPrompt (view w)) = true → isSelectionTarget (view w) = true →
  step w clickApply = Some (run (handleApply (view w)) w).
Proof.
  intros Hsel Htarget. unfold step. cbn [rendered handler].
  rewrite Hsel, Htarget, (isSelectionTarget_not_System _ Htarget). simpl.
  f_equal. unfold flush_effects. rewrite handleApply_view.
  by rewrite bool_decide_eq_true_2.
Qed.

(** X8: the Apply button is there only under [Translate] and [Polishing]
    with a template selected.  A click on it while the page has no
    configuration is dropped without a word: nothing changes, nothing is
    called, nothing is shown.  With a configuration the click changes no
    state and makes one [saveConfig] call, with the key
    ['translation_prompt_selection'] under [Translate] and
    ['polishing_prompt_selection'] under [Polishing]. *)
Theorem apply_through_the_button (w w' : World) :
  step w clickApply = Some w' →
  ∃ sel key, selectedPrompt (view w) = Some sel ∧ truthy sel = true
    ∧ (activeCategory (view w) = str "Translate" ∧ key = translation_prompt_selection
       ∨ activeCategory (view w) = str "Polishing" ∧ key = polishing_prompt_selection)
    ∧ (config (view w) = None → w' = w)
    ∧ (∀ cfg, config (view w) = Some cfg →
         view w' = view w
         ∧ request <$> inflight w' =
             (request <$> inflight w)
             ++ [saveConfig (<[key := selection_record (replace sel (str ".txt") [])
                                        (content (view w))]> cfg)]).
Proof.
  intros Hstep. unfold step in Hstep. cbn [rendered handler] in Hstep.
  destruct (truthy_opt (selectedPrompt (view w))) eqn:Hsel; [|done].
  destruct (isSystem (view w)); [done|].
  destruct (isSelectionTarget (view w)) eqn:Htarget; [|done].
  simpl in Hstep. injection Hstep as <-.
  destruct (selectedPrompt (view w)) as [sel|] eqn:Hsel'; [|done].
  simpl in Hsel. unfold flush_effects. rewrite handleApply_view.
  rewrite bool_decide_eq_true_2 by done.
  exists sel, (apply_key (activeCategory (view w))).
  split; [done|]. split; [done|]. split.
  { apply isSelectionTarget_cases in Htarget as [H|H]; rewrite H; [left|right];
      by split. }
  split.
  - intros Hcfg. unfold handleApply. by rewrite Hsel', Hcfg.
  - intros cfg Hcfg. rewrite handleApply_view. split; [done|].
    by rewrite run_inflight, fmap_app, handleApply_suspensions, Hsel', Hcfg, Hsel.
Qed.

(** X9: Apply binds the edit buffer, saved or not.  After an edit and a
    click on Apply the configuration sent holds the edited text; no
    [savePromptContent] is made, so the Binding Record can hold a text that
    the template file does not. *)
Theorem apply_binds_unsaved_buffer
    (w : World) (sel text : jsstring) (cfg : Config) :
  selectedPrompt (view w) = Some sel → truthy sel = true →
  isSelectionTarget (view w) = true → config (view w) = Some cfg →
  ∃ w', steps w [changeContent text; clickApply] = Some w'
    ∧ view w' = assign (setContent text) (view w)
    ∧ request <$> inflight w' =
        (request <$> inflight w)
        ++ [saveConfig (apply_config (activeCategory (view w)) sel text cfg)]
    ∧ trace w' =
        trace w
        ++ [requested (saveConfig (apply_config (activeCategory (view w)) sel text cfg))].
Proof.
  intros Hsel Ht Htarget Hcfg. cbn [steps].
  unfold step at 1. cbn [rendered handler]. rewrite Hsel. cbn [truthy_opt].
  rewrite Ht, (isSelectionTarget_not_System _ Htarget). cbn [negb andb].
  unfold flush_effects at 1. cbn -[step]. rewrite bool_decide_eq_true_2 by done.
  rewrite click_apply_world; [|by cbn; rewrite Hsel | done].
  unfold handleApply. cbn. rewrite Hsel, Ht, Hcfg. cbn.
  eexists. split; [done|]. cbn. split; [|by rewrite fmap_app].
  unfold assign. cbn. by rewrite Hsel, Hcfg.
Qed.

(** X10: two applies in flight settle in any order, and the one that
    settles last is the one the page keeps.  After Apply, an edit and Apply
    again, when the second call resolves before the first, the
    configuration held in the end carries the text of the first click, not
    the text applied last. *)
Theorem applies_settle_out_of_order
    (w : World) (sel text : jsstring) (cfg : Config) :
  selectedPrompt (view w) = Some sel → truthy sel = true →
  isSelectionTarget (view w) = true → config (view w) = Some cfg →
  let n := length (inflight w) in
  ∃ w', steps w [clickApply; changeContent text; clickApply;
                 settle (S n) resolved_ok; settle n resolved_ok] = Some w'
    ∧ content (view w') = text
    ∧ config (view w') =
        Some (apply_config (activeCategory (view w)) sel (content (view w)) cfg)
    ∧ inflight w' = inflight w
    ∧ trace w' =
        trace w
        ++ [requested (saveConfig
              (apply_config (activeCategory (view w)) sel (content (view w)) cfg));
            requested (saveConfig
              (apply_config (activeCategory (view w)) sel text cfg));
            alerted msg_prompt_updated; alerted msg_prompt_updated].
Proof.
  intros Hsel Ht Htarget Hcfg n.
  assert (Hsys := isSelectionTarget_not_System _ Htarget).
  eexists. split.
  { next_event.
    { rewrite click_apply_world; [|by rewrite Hsel | done].
      unfold handleApply. rewrite Hsel, Ht, Hcfg. simpl. reflexivity. }
    next_event.
    { unfold step. cbn [rendered handler]. simpl. rewrite Hsel. simpl.
      rewrite Ht, Hsys. simpl. same_category. reflexivity. }
    next_event.
    { rewrite click_apply_world; [|by simpl; rewrite Hsel; simpl | done].
      unfold handleApply. simpl. rewrite Hsel, Ht, Hcfg. simpl. reflexivity. }
    next_event.
    { erewrite (settle_at _ _ (inflight w ++ [_]) []);
        [|simpl; reflexivity | subst n; rewrite length_app; simpl; lia | done].
      same_category. simpl. reflexivity. }
    next_event.
    { erewrite (settle_at _ _ (inflight w) []);
        [|simpl; by rewrite app_nil_r | done | done].
      same_category. simpl. reflexivity. }
    reflexivity. }
  simpl. do 2 (split; [done|]). split; [by rewrite app_nil_r|].
  by rewrite <- !app_assoc.
Qed.

(** ** The draft *)

(** X11: the name typed in the draft outlives the draft.  Closing the draft
    with its X button keeps the name, and the next New Prompt shows it
    again; nothing is called in between. *)
Theorem draft_name_is_kept (w : World) (text : jsstring) :
  isSystem (view w) = false →
  ∃ w', steps w [clickNewPrompt; changeNewName text; cancelCreate; clickNewPrompt]
        = Some w'
    ∧ view w' = assign (setIsCreating true) (assign (setNewName text) (view w))
    ∧ inflight w' = inflight w
    ∧ trace w' = trace w.
Proof.
  intros Hsys. unfold isSystem in Hsys. eexists. split.
  { next_event.
    { unfold step. cbn [rendered handler]. unfold isSystem. rewrite Hsys. simpl.
      same_category. reflexivity. }
    next_event. { unfold step. simpl. same_category. reflexivity. }
    next_event. { unfold step. simpl. same_category. reflexivity. }
    next_event.
    { unfold step. cbn [rendered handler]. unfold isSystem. simpl.
      rewrite Hsys. simpl. same_category. reflexivity. }
    reflexivity. }
  done.
Qed.

(** ** Names, labels and identifiers *)

Lemma endsWith_app (s suffix : jsstring) : endsWith (s ++ suffix) suffix = true.
Proof.
  unfold endsWith. rewrite length_app.
  rewrite decide_True by lia. apply bool_decide_eq_true.
  replace (length s + length suffix - length suffix)%nat with (length s) by lia.
  by rewrite drop_app_length.
Qed.

Lemma endsWith_split (s suffix : jsstring) :
  endsWith s suffix = true → take (length s - length suffix) s ++ suffix = s.
Proof.
  unfold endsWith. case_decide; [|done]. intros Hs%bool_decide_eq_true.
  rewrite <- Hs at 2. apply take_drop.
Qed.

(** X12: the file that a create makes always ends in ['.txt'], and its
    label in the file list is its name without that ending: for a name
    typed without ['.txt'], the label is the name as typed. *)
Theorem label_of_created_file (name : jsstring) :
  endsWith (create_filename name) (str ".txt") = true
  ∧ display_name (create_filename name) ++ str ".txt" = create_filename name
  ∧ (endsWith name (str ".txt") = false → display_name (create_filename name) = name).
Proof.
  assert (Hends : endsWith (create_filename name) (str ".txt") = true).
  { unfold create_filename. destruct (endsWith name _) eqn:H; [done|].
    apply endsWith_app. }
  split; [done|]. split.
  - unfold display_name. rewrite Hends. by apply endsWith_split in Hends.
  - intros Hno. unfold display_name. rewrite Hends.
    unfold create_filename. rewrite Hno.
    rewrite length_app. change (length (str ".txt")) with 4%nat.
    replace (length name + 4 - 4)%nat with (length name) by lia.
    by rewrite take_app_length.
Qed.

Lemma replace_json_suffix (base : jsstring) :
  46 ∉ base → replace (base ++ str ".json") (str ".txt") [] = base ++ str ".json".
Proof.
  induction base as [|c base IH]; intros Hdot; [done|].
  apply not_elem_of_cons in Hdot as [Hc Hdot].
  cbn [app replace].
  replace (startsWith (c :: base ++ str ".json") (str ".txt")) with false.
  - by rewrite IH.
  - change (str ".txt") with (46 :: str "txt"). cbn [startsWith].
    by rewrite (proj2 (N.eqb_neq 46 c)).
Qed.

Lemma display_name_json (base : jsstring) :
  display_name (base ++ str ".json") = base.
Proof.
  unfold display_name.
  assert (Hno : endsWith (base ++ str ".json") (str ".txt") = false).
  { unfold endsWith. rewrite length_app.
    change (length (str ".json")) with 5%nat. change (length (str ".txt")) with 4%nat.
    rewrite decide_True by lia. apply bool_decide_eq_false.
    replace (length base + 5 - 4)%nat with (length base + 1)%nat by lia.
    rewrite drop_app_add. done. }
  rewrite Hno, endsWith_app, length_app.
  change (length (str ".json")) with 5%nat.
  replace (length base + 5 - 5)%nat with (length base) by lia.
  by rewrite take_app_length.
Qed.

(** X13: for a name with no dot before its extension, the identifier that
    Apply writes and the label of the file list agree on a ['.txt'] file,
    both are the name without the extension, and differ on a ['.json']
    file, where the label drops the extension and the identifier keeps
    it. *)
Theorem apply_id_and_label (base : jsstring) :
  46 ∉ base →
  replace (base ++ str ".txt") (str ".txt") [] = base
  ∧ display_name (base ++ str ".txt") = base
  ∧ replace (base ++ str ".json") (str ".txt") [] = base ++ str ".json"
  ∧ display_name (base ++ str ".json") = base.
Proof.
  intros Hdot. split; [by apply replace_txt_suffix|]. split.
  - unfold display_name. rewrite endsWith_app, length_app.
    change (length (str ".txt")) with 4%nat.
    replace (length base + 4 - 4)%nat with (length base) by lia.
    by rewrite take_app_length.
  - split; [by apply replace_json_suffix | apply display_name_json].
Qed.

(** ** No rejection escapes *)

Lemma contained_guarded (p : Proc) : contained p → guarded p.
Proof.
  induction p as [|e|c p IH|r f IH|a _ p IH]; simpl; try done.
  - intros Hf x. by apply IH.
  - intros [? ?]. by split; [|apply IH].
Qed.

Lemma contained_seq (p k : Proc) : contained p → contained k → contained (seq p k).
Proof.
  intros Hp Hk. induction p as [|e|c p IH|r f IH|a _ p IH]; simpl in *; try done.
  - by apply IH.
  - intros x. by apply IH.
  - destruct Hp. by split; [|apply IH].
Qed.

Lemma guarded_seq (p k : Proc) : guarded p → guarded k → guarded (seq p k).
Proof.
  intros Hp Hk. induction p as [|e|c p IH|r f IH|a _ p IH]; simpl in *; try done.
  - by apply IH.
  - intros x. by apply IH.
  - destruct Hp. by split; [|apply IH].
Qed.

Lemma contained_try_catch (p : Proc) (h : Error → Proc) :
  guarded p → (∀ e, contained (h e)) → contained (try_catch p h).
Proof.
  intros Hp Hh. induction p as [|e|c p IH|r f IH|a _ p IH]; simpl in *; try done.
  - by apply IH.
  - intros x. by apply IH.
  - destruct Hp. by split; [|apply IH].
Qed.

Lemma contained_try_finally (p f : Proc) :
  contained p → contained f → contained (try_finally p f).
Proof.
  intros Hp Hf. induction p as [|e|c p IH|r g IH|a _ p IH]; simpl in *; try done.
  - by apply IH.
  - intros x. by apply IH.
  - destruct Hp. by split; [|apply IH].
Qed.

Lemma guarded_await (r : Request) (k : Answer r → Proc) :
  (∀ v, guarded (k v)) → guarded (await r k).
Proof. intros Hk [e|v]; simpl; done. Qed.

Lemma contained_loadPrompts (cat : jsstring) : contained (loadPrompts cat).
Proof.
  unfold loadPrompts. cbn [contained]. apply contained_try_finally; [|done]. apply contained_try_catch; [|done].
  by apply guarded_await.
Qed.

Lemma contained_loadPromptContent (s : State) (filename : jsstring) :
  contained (loadPromptContent s filename).
Proof.
  unfold loadPromptContent. cbn [contained]. apply contained_try_finally; [|done]. apply contained_try_catch; [|done].
  by apply guarded_await.
Qed.

Lemma contained_loadCategories (s : State) : contained (loadCategories s).
Proof.
  apply contained_try_catch; [|done]. apply guarded_await. intros cats. simpl.
  by destruct (_ && _).
Qed.

Lemma contained_handleSave (s : State) : contained (handleSave s).
Proof.
  unfold handleSave. destruct (selectedPrompt s) as [sel|]; [|done].
  destruct (negb (truthy sel)); [done|]. cbn [contained].
  apply contained_try_finally; [|done]. apply contained_try_catch; [|done].
  by apply guarded_await.
Qed.

Lemma contained_handleApply (s : State) : contained (handleApply s).
Proof.
  unfold handleApply. destruct (selectedPrompt s) as [sel|]; [|done].
  destruct (config s) as [cfg|]; [|done]. destruct (negb (truthy sel)); [done|].
  apply contained_try_catch; [|done]. by apply guarded_await.
Qed.

Lemma contained_handleCreate (s : State) : contained (handleCreate s).
Proof.
  unfold handleCreate. destruct (negb _); [done|].
  apply contained_try_catch; [|done]. apply guarded_await. intros _.
  apply guarded_seq; [apply contained_guarded, contained_loadPrompts|].
  cbn [guarded]. split; [apply contained_loadPromptContent | done].
Qed.

Lemma contained_effectActiveCategory (s : State) :
  contained (effectActiveCategory s).
Proof.
  unfold effectActiveCategory. destruct (truthy _); [|done].
  split; [apply contained_loadPrompts | done].
Qed.

Lemma contained_handler (s : State) (ev : Event) : contained (handler s ev).
Proof.
  destruct ev; cbn [handler]; try done.
  - apply contained_handleCreate.
  - apply contained_loadPromptContent.
  - apply contained_handleApply.
  - apply contained_handleSave.
Qed.

Lemma contained_run (p : Proc) :
  contained p →
  Forall (λ q, ∀ x, contained (resume q x)) (suspensions p)
  ∧ Forall (λ o, ∀ e, o ≠ unhandled e) (outputs p).
Proof.
  induction p as [|e|c p IH|r f _|a IHa p IH]; simpl.
  - done.
  - done.
  - intros Hp. destruct (IH Hp) as [? ?]. split; [done|].
    apply Forall_app. split; [|done]. destruct c; simpl; by repeat constructor.
  - intros Hf. split; by apply Forall_singleton.
  - intros [Ha Hp]. destruct (IHa Ha) as [? ?], (IH Hp) as [? ?].
    split; by apply Forall_app.
Qed.

(** ** Invariants of the page *)

(** A property of worlds that the handlers keep when their control is on
    the page, that the effect keeps, and that the settling of a call in
    flight keeps, holds after every event. *)
Lemma step_invariant (Inv : World → Prop) :
  (∀ w ev, Inv w → rendered (view w) ev = true → Inv (run (handler (view w) ev) w)) →
  (∀ s w, Inv w → Inv (run (effectActiveCategory s) w)) →
  (∀ w i q x, Inv w → inflight w !! i = Some q →
     Inv (run (resume q x) (take_inflight i w))) →
  ∀ w ev w', Inv w → step w ev = Some w' → Inv w'.
Proof.
  intros Huser Heffect Hsettle w ev w' Hw Hstep.
  assert (Hflush : ∀ before w0, Inv w0 → Inv (flush_effects before w0)).
  { intros before w0 Hw0. unfold flush_effects. case_bool_decide; [done|].
    by apply Heffect. }
  assert (Hcase : (if rendered (view w) ev
                   then Some (flush_effects (view w) (run (handler (view w) ev) w))
                   else None) = Some w' → Inv w').
  { destruct (rendered (view w) ev) eqn:Hr; [|done]. intros [= <-].
    by apply Hflush, Huser. }
  destruct ev; try exact (Hcase Hstep). clear Hcase. unfold step in Hstep.
  destruct (inflight w !! i) as [q|] eqn:Hq; [|done].
  destruct (fit (request q) reply) as [x|]; [|done]. injection Hstep as <-.
  by apply Hflush, Hsettle.
Qed.

Lemma steps_invariant (Inv : World → Prop) :
  (∀ w ev w', Inv w → step w ev = Some w' → Inv w') →
  ∀ evs w w', Inv w → steps w evs = Some w' → Inv w'.
Proof.
  intros Hstep evs. induction evs as [|ev evs IH]; intros w w' Hw Hsteps;
    simpl in Hsteps.
  - by injection Hsteps as <-.
  - destruct (step w ev) as [w1|] eqn:H1; [|done].
    eapply IH; [|done]. by eapply Hstep.
Qed.

Lemma run_Contained (p : Proc) (w : World) :
  contained p → Contained w → Contained (run p w).
Proof.
  intros Hp [Hfl Htr]. destruct (contained_run p Hp) as [Hsus Hout].
  split; [rewrite run_inflight | rewrite run_trace]; by apply Forall_app.
Qed.

Lemma step_Contained (w : World) (ev : Event) (w' : World) :
  Contained w → step w ev = Some w' → Contained w'.
Proof.
  apply (step_invariant Contained).
  - intros w0 ev0 Hw _. apply run_Contained; [apply contained_handler | done].
  - intros s w0 Hw. apply run_Contained; [apply contained_effectActiveCategory | done].
  - intros w0 i q x [Hfl Htr] Hq. apply run_Contained.
    + rewrite Forall_lookup in Hfl. by apply (Hfl i q).
    + split; [by apply Forall_delete | done].
Qed.

(** X14: no rejection escapes the page.  Whatever the store answers and
    whatever the operator does, every rejected call is caught by the
    handler that made it: in every world the page can reach nothing has
    been left as an unhandled rejection. *)
Theorem no_unhandled_rejection
    (cfg : option Config) (history : list Event) (w : World) (e : Error) :
  steps (mount cfg) history = Some w → unhandled e ∉ trace w.
Proof.
  intros Hreach.
  assert (Hw : Contained w).
  { eapply (steps_invariant Contained); [apply step_Contained| |done].
    apply run_Contained; [|by split].
    split; [apply contained_loadCategories | done]. }
  destruct Hw as [_ Htr]. rewrite Forall_forall in Htr.
  intros Hin. by apply (Htr _ Hin e).
Qed.

(** ** Every rejection is reported *)

(** Walks through a handler: every [await] is checked for its report, both
    replies are followed. *)
Ltac check_reporting :=
  repeat (cbn -[is_report];
          match goal with
          | |- True => exact I
          | |- _ ∧ _ => split
          | |- reports_rejection _ =>
              intros ?; eexists _, _; split; [reflexivity | simpl; auto]
          | |- ∀ _ : _ + _, _ => intros [?|?]
          | |- context [if ?b then _ else _] => destruct b
          end).

Lemma reporting_loadPrompts (cat : jsstring) : reporting (loadPrompts cat).
Proof. unfold loadPrompts. check_reporting. Qed.

Lemma reporting_loadPromptContent (s : State) (filename : jsstring) :
  reporting (loadPromptContent s filename).
Proof. unfold loadPromptContent. check_reporting. Qed.

Lemma reporting_loadCategories (s : State) : reporting (loadCategories s).
Proof. unfold loadCategories. check_reporting. Qed.

Lemma reporting_handleSave (s : State) : reporting (handleSave s).
Proof.
  unfold handleSave. destruct (selectedPrompt s) as [sel|]; [|done].
  check_reporting.
Qed.

Lemma reporting_handleApply (s : State) : reporting (handleApply s).
Proof.
  unfold handleApply. destruct (selectedPrompt s) as [sel|]; [|done].
  destruct (config s) as [cfg|]; [|done]. check_reporting.
Qed.

Lemma reporting_handleCreate (s : State) : reporting (handleCreate s).
Proof. unfold handleCreate, loadPrompts, loadPromptContent. check_reporting. Qed.

Lemma reporting_effectActiveCategory (s : State) :
  reporting (effectActiveCategory s).
Proof. unfold effectActiveCategory, loadPrompts. check_reporting. Qed.

Lemma reporting_handler (s : State) (ev : Event) : reporting (handler s ev).
Proof.
  destruct ev; cbn [handler]; try done.
  - apply reporting_handleCreate.
  - apply reporting_loadPromptContent.
  - apply reporting_handleApply.
  - apply reporting_handleSave.
Qed.

Lemma reporting_suspensions (p : Proc) :
  reporting p →
  Forall (λ q, reports_rejection q ∧ ∀ x, reporting (resume q x)) (suspensions p).
Proof.
  induction p as [|e|c p IH|r f _|a IHa p IH]; simpl.
  - done.
  - done.
  - done.
  - intros Hf. by apply Forall_singleton.
  - intros [Ha Hp]. apply Forall_app. by split; [apply IHa | apply IH].
Qed.

Lemma run_Reporting (p : Proc) (w : World) :
  reporting p → Reporting w → Reporting (run p w).
Proof.
  intros Hp Hw. unfold Reporting. rewrite run_inflight. apply Forall_app.
  split; [done | by apply reporting_suspensions].
Qed.

Lemma step_Reporting (w : World) (ev : Event) (w' : World) :
  Reporting w → step w ev = Some w' → Reporting w'.
Proof.
  apply (step_invariant Reporting).
  - intros w0 ev0 Hw _. apply run_Reporting; [apply reporting_handler | done].
  - intros s w0 Hw. apply run_Reporting; [apply reporting_effectActiveCategory | done].
  - intros w0 i q x Hw Hq. apply run_Reporting.
    + unfold Reporting in Hw. rewrite Forall_lookup in Hw. by apply (Hw i q).
    + by apply Forall_delete.
Qed.

Lemma flush_effects_trace (before : State) (w : World) :
  ∃ t, trace (flush_effects before w) = trace w ++ t.
Proof.
  unfold flush_effects. case_bool_decide.
  - exists []. by rewrite app_nil_r.
  - eexists. apply run_trace.
Qed.

(** X15: every rejected call is reported, and first of all.  In every world
    the page can reach, when a call in flight is rejected the first thing
    that happens is the report of that rejection: a line on the console for
    the three loads (categories, list, content), an alert for a rejected
    write (the save or the create of a template, the apply). *)
Theorem rejections_are_reported
    (cfg : option Config) (history : list Event) (w : World) (i : nat)
    (q : Pending) (e : Error) :
  steps (mount cfg) history = Some w → inflight w !! i = Some q →
  ∃ w' o t, step w (settle i (rejected e)) = Some w'
    ∧ trace w' = trace w ++ o :: t
    ∧ is_report (request q) e o.
Proof.
  intros Hreach Hq.
  assert (Hw : Reporting w).
  { eapply (steps_invariant Reporting); [apply step_Reporting| |done].
    apply run_Reporting; [|by apply Forall_nil].
    split; [apply reporting_loadCategories | done]. }
  unfold Reporting in Hw. rewrite Forall_lookup in Hw.
  destruct (Hw i q Hq) as [Hreport _]. destruct (Hreport e) as (o & t & Hout & Ho).
  unfold step. rewrite Hq. cbn [fit].
  destruct (flush_effects_trace (view w) (run (resume q (inl e)) (take_inflight i w)))
    as [t' Ht'].
  eexists _, o, (t ++ t'). split; [done|]. split; [|done].
  by rewrite Ht', run_trace, Hout, <- app_assoc.
Qed.

(** ** The loading flag *)

Lemma exec_loading (c : Cmd) (w : World) :
  loading (view (exec c w)) =
  match c with setLoading x => x | _ => loading (view w) end.
Proof. by destruct c. Qed.

Lemma run_loading (p : Proc) :
  ∀ w, loading (view (run p w)) = loading_after p (loading (view w)).
Proof.
  induction p as [|e|c p IH|r f _|a IHa p IH]; intros w; simpl.
  - done.
  - done.
  - rewrite IH, exec_loading. by destruct c.
  - done.
  - by rewrite IH, IHa.
Qed.

Lemma tidy_suspensions (p : Proc) :
  tidy p → Forall (settles_tidily tidy) (suspensions p).
Proof.
  induction p as [|e|c p IH|r f _|a IHa p IH]; simpl.
  - done.
  - done.
  - done.
  - intros Hf. by apply Forall_singleton.
  - intros [Ha Hp]. apply Forall_app. by split; [apply IHa | apply IH].
Qed.

Lemma Exists_delete_other {A : Type} (P : A → Prop) (l : list A) (i : nat) (x : A) :
  Exists P l → l !! i = Some x → ¬ P x → Exists P (delete i l).
Proof.
  intros (y & Hy & HPy)%Exists_exists Hi Hx.
  apply list_elem_of_lookup in Hy as [j Hj].
  apply Exists_exists. exists y. split; [|done].
  apply list_elem_of_lookup.
  destruct (decide (j < i)%nat) as [Hlt|Hge].
  - exists j. by rewrite list_lookup_delete_lt.
  - assert (j ≠ i) by (intros ->; congruence).
    exists (pred j). rewrite list_lookup_delete_ge by lia.
    by replace (S (pred j)) with j by lia.
Qed.

(** Finds the load among the calls a process leaves in flight. *)
Ltac find_load :=
  unfold load_in_flight; simpl;
  solve [repeat first [apply Exists_cons_hd; reflexivity | apply Exists_cons_tl]].

(** Walks through a handler: what every continuation does to [loading]. *)
Ltac check_tidy :=
  repeat (cbn -[closing neutral];
          match goal with
          | |- True => exact I
          | |- _ ∧ _ => split
          | |- settles_tidily _ _ => intros [?|?]
          | |- closing _ =>
              let H := fresh in
              intros ?; simpl; intros H; first [discriminate H | find_load]
          | |- neutral _ =>
              let H := fresh in
              intros ?; simpl; intros H;
              first [discriminate H | left; exact H | right; find_load]
          | |- context [if ?b then _ else _] => destruct b
          end).

Lemma tidy_loadPrompts (cat : jsstring) :
  tidy (loadPrompts cat) ∧ neutral (loadPrompts cat).
Proof. unfold loadPrompts. check_tidy. Qed.

Lemma tidy_loadPromptContent (s : State) (filename : jsstring) :
  tidy (loadPromptContent s filename) ∧ neutral (loadPromptContent s filename).
Proof. unfold loadPromptContent. check_tidy. Qed.

Lemma tidy_loadCategories (s : State) :
  tidy (loadCategories s) ∧ neutral (loadCategories s).
Proof. unfold loadCategories. check_tidy. Qed.

Lemma tidy_handleSave (s : State) : tidy (handleSave s) ∧ neutral (handleSave s).
Proof.
  unfold handleSave. destruct (selectedPrompt s) as [sel|]; check_tidy.
Qed.

Lemma tidy_handleApply (s : State) : tidy (handleApply s) ∧ neutral (handleApply s).
Proof.
  unfold handleApply. destruct (selectedPrompt s) as [sel|]; [|check_tidy].
  destruct (config s) as [cfg|]; check_tidy.
Qed.

Lemma tidy_handleCreate (s : State) :
  tidy (handleCreate s) ∧ neutral (handleCreate s).
Proof. unfold handleCreate, loadPrompts, loadPromptContent. check_tidy. Qed.

Lemma tidy_effectActiveCategory (s : State) :
  tidy (effectActiveCategory s) ∧ neutral (effectActiveCategory s).
Proof. unfold effectActiveCategory, loadPrompts. check_tidy. Qed.

Lemma tidy_handler (s : State) (ev : Event) :
  tidy (handler s ev) ∧ neutral (handler s ev).
Proof.
  destruct ev; cbn [handler];
    first [apply tidy_handleCreate | apply tidy_loadPromptContent
          | apply tidy_handleApply | apply tidy_handleSave | by check_tidy].
Qed.

Lemma run_Tidy (p : Proc) (w : World) :
  tidy p ∧ neutral p → Tidy w → Tidy (run p w).
Proof.
  intros [Hp Hn] [Hfl Hon]. unfold Tidy. rewrite run_inflight, run_loading.
  split; [apply Forall_app; by split; [|apply tidy_suspensions]|].
  intros Hafter. apply Exists_app.
  destruct (Hn _ Hafter) as [Hb|Hnew]; [left; by apply Hon | by right].
Qed.

Lemma step_Tidy (w : World) (ev : Event) (w' : World) :
  Tidy w → step w ev = Some w' → Tidy w'.
Proof.
  apply (step_invariant Tidy).
  - intros w0 ev0 Hw _. apply run_Tidy; [apply tidy_handler | done].
  - intros s w0 Hw. apply run_Tidy; [apply tidy_effectActiveCategory | done].
  - intros w0 i q x [Hfl Hon] Hq.
    assert (Hq' := Hfl). rewrite Forall_lookup in Hq'.
    destruct (Hq' i q Hq x) as [Hkind Htidy].
    unfold Tidy. rewrite run_inflight, run_loading.
    split; [apply Forall_app; split; [by apply Forall_delete | by apply tidy_suspensions]|].
    intros Hafter. apply Exists_app. simpl in Hafter.
    destruct (is_load (request q)) eqn:Hload.
    + right. by apply (Hkind _ Hafter).
    + destruct (Hkind _ Hafter) as [Hb|Hnew]; [left | by right].
      apply (Exists_delete_other _ _ i q); [by apply Hon | done | by rewrite Hload].
Qed.

(** X16: [loading] is on only while a load is in flight.  In every world
    the page can reach with the loading overlay on, a call for a list of
    templates or for the content of a template has not settled yet; once
    none is in flight the overlay is off. *)
Theorem loading_means_load_in_flight
    (cfg : option Config) (history : list Event) (w : World) :
  steps (mount cfg) history = Some w → loading (view w) = true →
  ∃ i q, inflight w !! i = Some q
    ∧ ((∃ cat, request q = listPrompts cat)
       ∨ (∃ cat filename, request q = getPromptContent cat filename)).
Proof.
  intros Hreach Hon.
  assert (Hw : Tidy w).
  { eapply (steps_invariant Tidy); [apply step_Tidy| |done].
    apply run_Tidy; [|by split].
    unfold effectMount, loadCategories. check_tidy. }
  destruct Hw as [_ Hload]. specialize (Hload Hon).
  apply Exists_exists in Hload as (q & Hq & Hkind).
  apply list_elem_of_lookup in Hq as [i Hi]. exists i, q. split; [done|].
  destruct (request q); try done; [left | right]; eauto.
Qed.

(** X17: the converse fails by design of the flag: every load that settles
    turns [loading] off, also while another load is in flight.  After a
    switch to [c1] and then to [c2], when the list of [c1] comes the overlay
    goes off although the list of [c2] is still awaited, and the list on
    display under [c2] is the one of [c1]. *)
Theorem loading_goes_off_at_first_response
    (w : World) (c1 c2 : jsstring) (l1 : list jsstring) :
  c1 ∈ categories (view w) → c2 ∈ categories (view w) →
  truthy c1 = true → truthy c2 = true →
  c1 ≠ activeCategory (view w) → c2 ≠ c1 →
  let n := length (inflight w) in
  ∃ w', steps w [clickCategory c1; clickCategory c2; settle n (resolved_names l1)]
        = Some w'
    ∧ loading (view w') = false
    ∧ activeCategory (view w') = c2
    ∧ prompts (view w') = l1
    ∧ request <$> inflight w' = (request <$> inflight w) ++ [listPrompts c2].
Proof.
  intros Hc1 Hc2 Ht1 Ht2 Hne1 Hne2 n. eexists. split.
  { next_event. { by apply click_category_world. }
    next_event. { by apply click_category_world. }
    next_event.
    { erewrite (settle_at _ _ (inflight w) [_]);
        [|simpl; by rewrite <- app_assoc | done | done].
      same_category. simpl. reflexivity. }
    reflexivity. }
  simpl. do 3 (split; [done|]). by rewrite fmap_app.
Qed.

(** ** The categories are asked for once *)

Lemma categories_requests_app (t t' : list Output) :
  categories_requests (t ++ t') = (categories_requests t + categories_requests t')%nat.
Proof. induction t as [|o t IH]; simpl; [done|]. rewrite IH. lia. Qed.

(** Walks through a handler: no call of it is [listPromptCategories]. *)
Ltac check_settled :=
  repeat (cbn;
          match goal with
          | |- True => exact I
          | |- _ = _ => reflexivity
          | |- _ ∧ _ => split
          | |- ∀ _ : _ + _, _ => intros [?|?]
          | |- context [if ?b then _ else _] => destruct b
          end).

Lemma settled_categories_handler (s : State) (ev : Event) :
  settled_categories (handler s ev).
Proof.
  unfold settled_categories.
  destruct ev; cbn [handler];
    unfold handleCreate, handleSave, handleApply, loadPromptContent, loadPrompts;
    try destruct (selectedPrompt s); try destruct (config s); check_settled.
Qed.

Lemma settled_categories_effect (s : State) :
  settled_categories (effectActiveCategory s).
Proof.
  unfold settled_categories, effectActiveCategory, loadPrompts. check_settled.
Qed.

Lemma settled_categories_outputs (p : Proc) :
  settled_categories p → categories_requests (outputs p) = 0%nat.
Proof.
  unfold settled_categories.
  induction p as [|e|c p IH|r f _|a IHa p IH]; simpl.
  - done.
  - done.
  - intros [_ Hp]. rewrite categories_requests_app, (IH Hp). by destruct c.
  - intros [Hr _]. by destruct r.
  - intros [Ha Hp]. by rewrite categories_requests_app, (IHa Ha), (IH Hp).
Qed.

Lemma run_Once (p : Proc) (w : World) : settled_categories p → Once w → Once (run p w).
Proof.
  intros Hp [Hfl Hone]. split.
  - rewrite run_inflight. apply Forall_app. split; [done|].
    by apply obeys_suspensions.
  - rewrite run_trace, categories_requests_app, Hone.
    by rewrite settled_categories_outputs.
Qed.

Lemma step_Once (w : World) (ev : Event) (w' : World) :
  Once w → step w ev = Some w' → Once w'.
Proof.
  apply (step_invariant Once).
  - intros w0 ev0 Hw _. apply run_Once; [apply settled_categories_handler | done].
  - intros s w0 Hw. apply run_Once; [apply settled_categories_effect | done].
  - intros w0 i q x [Hfl Hone] Hq. apply run_Once.
    + rewrite Forall_lookup in Hfl. by apply (Hfl i q).
    + split; [by apply Forall_delete | done].
Qed.

(** X18: the categories are asked for once in the life of the page, at
    mount.  No event makes the page ask again: not a rejection of that
    call, not an empty answer, nothing the operator can do. *)
Theorem categories_are_asked_once
    (cfg : option Config) (history : list Event) (w : World) :
  steps (mount cfg) history = Some w → categories_requests (trace w) = 1%nat.
Proof.
  intros Hreach.
  assert (Hw : Once w).
  { eapply (steps_invariant Once); [apply step_Once| |done].
    split; [|done]. apply Forall_singleton. intros x.
    unfold settled_categories. destruct x; check_settled. }
  by destruct Hw.
Qed.

(** ** The filter of the file list *)

Lemma startsWith_prefix (s pat : jsstring) :
  startsWith s pat = true ↔ ∃ post, s = pat ++ post.
Proof.
  revert pat. induction s as [|b s IH]; intros [|a pat]; simpl.
  - split; [by exists [] | done].
  - split; [done | by intros [post ?]].
  - split; [by exists (b :: s) | done].
  - destruct (N.eqb_spec a b) as [->|Hne]; simpl.
    + rewrite IH. split; intros [post Heq]; exists post; [by rewrite Heq | by injection Heq].
    + split; [done | intros [post Heq]; by injection Heq].
Qed.

(** [s.includes(pat)] holds exactly when [pat] occurs in [s]. *)
Lemma string_includes_occurs (s pat : jsstring) :
  string_includes s pat = true ↔ ∃ pre post, s = pre ++ pat ++ post.
Proof.
  induction s as [|b s IH]; cbn [string_includes].
  - rewrite orb_false_r, startsWith_prefix. split.
    + intros [post ->]. by exists [], post.
    + intros [pre [post Heq]]. destruct pre; [by exists post | done].
  - rewrite orb_true_iff, startsWith_prefix, IH. split.
    + intros [[post ->] | [pre [post ->]]]; [by exists [], post | by exists (b :: pre), post].
    + intros [pre [post Heq]]. destruct pre as [|a pre].
      * left. by exists post.
      * right. injection Heq as -> ->. by exists pre, post.
Qed.

Lemma filter_sublist_of {A : Type} (f : A → bool) (l : list A) :
  List.filter f l `sublist_of` l.
Proof.
  induction l as [|a l IH]; simpl; [done|].
  destruct (f a); by constructor.
Qed.

(** X19: the file list shows, in the order of the list held, exactly the
    templates of that list whose lower-cased name contains the lower-cased
    text of the filter; with an empty filter it shows them all.  A click on
    a name is an event of the page exactly when the name is shown, so a
    template that the filter hides cannot be opened.  (The lower-casing is
    that of the host.) *)
Theorem file_list_filter (w : World) (p : jsstring) :
  (p ∈ filteredPrompts (view w) ↔
     p ∈ prompts (view w)
     ∧ ∃ pre post, toLowerCase p = pre ++ toLowerCase (filter (view w)) ++ post)
  ∧ filteredPrompts (view w) `sublist_of` prompts (view w)
  ∧ (is_Some (step w (clickPrompt p)) ↔ p ∈ filteredPrompts (view w))
  ∧ (filter (view w) = [] → filteredPrompts (view w) = prompts (view w)).
Proof.
  split; [|split; [|split]].
  - unfold filteredPrompts.
    rewrite list_elem_of_In, List.filter_In, <- list_elem_of_In.
    by rewrite string_includes_occurs.
  - apply filter_sublist_of.
  - unfold step. cbn [rendered]. case_bool_decide as Hin.
    + split; [done | by eexists].
    + split; [by intros [? ?] | done].
  - apply filteredPrompts_empty_filter.
Qed.

(** ** The draft and the protected category *)

(** X20: the New Prompt button is not offered under [System], but a draft
    opened under another category stays open when the operator goes to
    [System], and submitting it there asks the store to write the new file
    into [System]. *)
Theorem draft_writes_into_System (w : World) (name : jsstring) :
  isSystem (view w) = false → str "System" ∈ categories (view w) →
  ¬ whitespace_only name →
  ∃ w', steps w [clickNewPrompt; clickCategory (str "System");
                 changeNewName name; submitCreate] = Some w'
    ∧ activeCategory (view w') = str "System"
    ∧ step w' clickNewPrompt = None
    ∧ request <$> inflight w' =
        (request <$> inflight w)
        ++ [listPrompts (str "System");
            savePromptContent (str "System") (create_filename name) []].
Proof.
  intros Hsys Hin Hname. rewrite <- trim_nil in Hname.
  destruct (trim name) as [|c t] eqn:Htrim; [done|].
  assert (Hne : str "System" ≠ activeCategory (view w)).
  { intros Heq. unfold isSystem, strict_eq in Hsys.
    by rewrite bool_decide_eq_true_2 in Hsys. }
  eexists. split.
  { next_event.
    { unfold step. cbn [rendered handler]. rewrite Hsys. simpl.
      same_category. reflexivity. }
    next_event. { by apply click_category_world. }
    next_event. { unfold step. simpl. same_category. reflexivity. }
    next_event.
    { rewrite submit_create_world by done. unfold handleCreate. cbn [newName view].
      simpl. rewrite Htrim. simpl. reflexivity. }
    reflexivity. }
  simpl. split; [done|]. split; [done|]. by rewrite !fmap_app, <- app_assoc.
Qed.

(** ** The Save button while a save is in flight *)

(** X21: while a call made by a click on Save is in flight, in any world
    the page can reach, [saving] is on, the Save button is disabled so that
    a click on it is not possible, and no other save is in flight. *)
Theorem one_save_in_flight
    (cfg : option Config) (history : list Event) (w : World) (i : nat)
    (q : Pending) (s : State) :
  steps (mount cfg) history = Some w →
  inflight w !! i = Some q → q ∈ suspensions (handleSave s) →
  saving (view w) = true
  ∧ step w clickSave = None
  ∧ ∀ j q' s', inflight w !! j = Some q' → q' ∈ suspensions (handleSave s') → j = i.
Proof.
  intros Hreach Hi Hq.
  assert (Hw : OneSave w) by (eapply steps_OneSave; [apply mount_OneSave | done]).
  destruct Hw as (_ & Hone & Hoff).
  assert (Hsaving : saving (view w) = true).
  { destruct (saving (view w)); [done|]. specialize (Hoff eq_refl).
    rewrite Forall_lookup in Hoff. destruct (handleSave_not_calm s q Hq).
    by apply (Hoff i). }
  split; [done|]. split.
  - unfold step. cbn [rendered]. by rewrite Hsaving, andb_false_r.
  - intros j q' s' Hj Hq'. destruct (decide (j = i)) as [|Hne]; [done|].
    destruct (Hone j i q' q Hj Hi Hne) as [Hcalm|Hcalm];
      by eapply handleSave_not_calm in Hcalm.
Qed.

End Page.

(** * The page on a host: examples *)

#[local] Existing Instance ascii_host.

Lemma save_failure_preserves_buffer_witness :
  let w := run (handleSave demo_state) demo_world in
  truthy_opt (selectedPrompt demo_state) = true
  ∧ inflight w !! 0%nat = head (suspensions (handleSave demo_state))
  ∧ (∀ w0, content (view (run (handleSave demo_state) w0)) = content (view w0))
  ∧ ∃ w', step w (settle 0 (rejected TransportFailure)) = Some w'
        ∧ content (view w') = str "Hello World"
        ∧ trace w' = trace w ++ [alerted msg_save_failed]
        ∧ saving (view w') = false
        ∧ inflight w' = [].
Proof.
  split; [reflexivity|]. split; [reflexivity|].
  apply (save_failure_preserves_buffer demo_state
           (run (handleSave demo_state) demo_world) 0 TransportFailure);
    reflexivity.
Defined.

Lemma apply_installs_after_persistence_witness :
  let w := run (handleApply demo_state) demo_world in
  selectedPrompt demo_state = Some (str "a.txt")
  ∧ truthy (str "a.txt") = true
  ∧ config demo_state = Some ∅
  ∧ inflight w !! 0%nat = head (suspensions (handleApply demo_state))
  ∧ (∀ w0, view (run (handleApply demo_state) w0) = view w0)
  ∧ (∀ e, ∃ w', step w (settle 0 (rejected e)) = Some w'
        ∧ view w' = view w
        ∧ trace w' = trace w ++ [alerted msg_apply_failed])
  ∧ (∃ w', step w (settle 0 resolved_ok) = Some w'
        ∧ config (view w') =
            Some (apply_config (str "Translate") (str "a.txt") (str "Hello World") ∅)
        ∧ trace w' = trace w ++ [alerted msg_prompt_updated]).
Proof.
  do 4 (split; [reflexivity|]).
  apply (apply_installs_after_persistence demo_state (str "a.txt") ∅
           (run (handleApply demo_state) demo_world) 0); reflexivity.
Defined.

Lemma apply_key_tests_Polishing_only_witness :
  selectedPrompt system_state = Some (str "sys.txt")
  ∧ truthy (str "sys.txt") = true
  ∧ config system_state = Some ∅
  ∧ activeCategory system_state ≠ str "Polishing"
  ∧ request <$> suspensions (handleApply system_state) =
    [saveConfig (<[translation_prompt_selection :=
                    selection_record (str "sys") (str "You are a translator.")]> ∅)].
Proof.
  do 3 (split; [reflexivity|]). split; [discriminate|].
  apply (apply_key_tests_Polishing_only system_state (str "sys.txt") ∅);
    [reflexivity .. | discriminate].
Defined.

Lemma categories_loaded_selects_witness :
  truthy (activeCategory (initialState (Some ∅))) = false
  ∧ inflight (mount (Some ∅)) !! 0%nat =
      head (suspensions (loadCategories (initialState (Some ∅))))
  ∧ [str "System"; str "Translate"; str "Polishing"] ≠ []
  ∧ [str "System"; str "Polishing"] ≠ []
  ∧ (∃ w', step (mount (Some ∅))
             (settle 0 (resolved_names [str "System"; str "Translate"; str "Polishing"]))
           = Some w'
        ∧ categories (view w') = [str "System"; str "Translate"; str "Polishing"]
        ∧ activeCategory (view w') = str "Translate"
        ∧ trace w' = trace (mount (Some ∅)) ++ [requested (listPrompts (str "Translate"))])
  ∧ (∃ w', step (mount (Some ∅)) (settle 0 (resolved_names [str "System"; str "Polishing"]))
           = Some w'
        ∧ categories (view w') = [str "System"; str "Polishing"]
        ∧ activeCategory (view w') = str "System"
        ∧ trace w' = trace (mount (Some ∅)) ++ [requested (listPrompts (str "System"))]).
Proof.
  assert (Hin : str "Translate" ∈ [str "System"; str "Translate"; str "Polishing"])
    by (apply (bool_decide_unpack _); vm_compute; exact I).
  assert (Hnin : str "Translate" ∉ [str "System"; str "Polishing"])
    by (apply (bool_decide_unpack _); vm_compute; exact I).
  do 2 (split; [reflexivity|]). do 2 (split; [discriminate|]). split.
  - destruct (categories_loaded_selects (initialState (Some ∅)) (mount (Some ∅)) 0
                [str "System"; str "Translate"; str "Polishing"]
                eq_refl eq_refl ltac:(discriminate))
      as (w' & Hstep & Hcats & Hyes & _ & _ & Hload & _).
    exists w'. split; [exact Hstep|]. split; [exact Hcats|].
    pose proof (Hyes Hin) as Hactive. split; [exact Hactive|].
    rewrite Hactive in Hload. apply Hload; [reflexivity | discriminate].
  - destruct (categories_loaded_selects (initialState (Some ∅)) (mount (Some ∅)) 0
                [str "System"; str "Polishing"] eq_refl eq_refl ltac:(discriminate))
      as (w' & Hstep & Hcats & _ & Hno & _ & Hload & _).
    exists w'. split; [exact Hstep|]. split; [exact Hcats|].
    assert (Hactive : activeCategory (view w') = str "System").
    { pose proof (Hno Hnin) as Hhead. injection Hhead as Hhead. symmetry. exact Hhead. }
    split; [exact Hactive|].
    rewrite Hactive in Hload. apply Hload; [reflexivity | discriminate].
Defined.

Lemma create_protocol_witness :
  isCreating (view draft_world) = true
  ∧ ¬ whitespace_only (newName (view draft_world))
  ∧ ∃ w1, step draft_world submitCreate = Some w1
      ∧ request <$> inflight w1 =
          [savePromptContent (str "Translate") (str "foo.txt") []].
Proof.
  assert (Hname : ¬ whitespace_only (newName (view draft_world))).
  { intros H. apply trim_nil in H. discriminate H. }
  split; [reflexivity|]. split; [exact Hname|].
  destruct (create_protocol draft_world eq_refl) as (_ & Hcreate & _).
  destruct (Hcreate Hname) as (w1 & Hstep & _ & Hreq & _).
  exists w1. split; [exact Hstep | exact Hreq].
Defined.

Lemma category_switch_last_response_wins_witness :
  let w := {| view := demo_state; inflight := []; trace := [] |} in
  str "Polishing" ∈ categories (view w) ∧ str "System" ∈ categories (view w)
  ∧ truthy (str "Polishing") = true ∧ truthy (str "System") = true
  ∧ str "Polishing" ≠ activeCategory (view w) ∧ str "System" ≠ str "Polishing"
  ∧ (∃ w', steps w [clickCategory (str "Polishing"); clickCategory (str "System");
                    settle 0 (resolved_names [str "polish.txt"]);
                    settle 0 (resolved_names [str "sys.txt"])] = Some w'
      ∧ activeCategory (view w') = str "System"
      ∧ prompts (view w') = [str "sys.txt"]).
Proof.
  assert (H1 : str "Polishing" ∈ categories demo_state)
    by (apply (bool_decide_unpack _); vm_compute; exact I).
  assert (H2 : str "System" ∈ categories demo_state)
    by (apply (bool_decide_unpack _); vm_compute; exact I).
  do 2 (split; [assumption|]). do 2 (split; [reflexivity|]).
  do 2 (split; [discriminate|]).
  exact (proj1 (category_switch_last_response_wins
                  {| view := demo_state; inflight := []; trace := [] |}
                  (str "Polishing") (str "System")
                  [str "polish.txt"] [str "sys.txt"] TransportFailure
                  H1 H2 eq_refl eq_refl ltac:(discriminate) ltac:(discriminate))).
Defined.

Lemma save_guard_is_in_the_rendering_witness :
  step demo_world clickSave = Some (run (handleSave demo_state) demo_world)
  ∧ ∃ sel, selectedPrompt (view demo_world) = Some sel ∧ truthy sel = true
      ∧ activeCategory (view demo_world) ≠ str "System"
      ∧ request <$> inflight (run (handleSave demo_state) demo_world) =
          (request <$> inflight demo_world)
          ++ [savePromptContent (activeCategory (view demo_world)) sel
                (content (view demo_world))].
Proof.
  split; [reflexivity|].
  exact (proj1 (proj2 save_guard_is_in_the_rendering) demo_world
           (run (handleSave demo_state) demo_world) eq_refl).
Defined.

Lemma binding_record_is_snapshot_witness :
  steps (mount (Some ∅)) applied_history = Some applied_world
  ∧ Forall (λ q, ∀ c, request q ≠ saveConfig c) (inflight applied_world)
  ∧ (clickApply ∉ [changeContent (str "Hello World"); clickSave; settle 0 resolved_ok])
  ∧ steps applied_world
      [changeContent (str "Hello World"); clickSave; settle 0 resolved_ok]
    = Some edited_world
  ∧ content (view edited_world) = str "Hello World"
  ∧ config (view applied_world) =
      Some (<[translation_prompt_selection :=
                selection_record (str "a") (str "Hello")]> ∅)
  ∧ config (view edited_world) = config (view applied_world)
  ∧ ∃ t, trace edited_world = trace applied_world ++ t
       ∧ Forall (λ o, ∀ c, o ≠ requested (saveConfig c)) t.
Proof.
  assert (H1 : steps (mount (Some ∅)) applied_history = Some applied_world)
    by (vm_compute; reflexivity).
  assert (H2 : Forall (λ q, ∀ c, request q ≠ saveConfig c) (inflight applied_world))
    by constructor.
  assert (H3 : clickApply ∉
               [changeContent (str "Hello World"); clickSave; settle 0 resolved_ok]).
  { intros H. repeat (apply elem_of_cons in H as [H|H]; [discriminate H|]).
    by apply elem_of_nil in H. }
  assert (H4 : steps applied_world
                 [changeContent (str "Hello World"); clickSave; settle 0 resolved_ok]
               = Some edited_world) by (vm_compute; reflexivity).
  do 4 (split; [assumption|]). split; [reflexivity|].
  split; [vm_compute; reflexivity|].
  exact (binding_record_is_snapshot (Some ∅) applied_history
           [changeContent (str "Hello World"); clickSave; settle 0 resolved_ok]
           applied_world edited_world H1 H2 H3 H4).
Defined.

Lemma select_category_witness :
  let unnamed := exec (setCategories [[]; str "Translate"]) demo_world in
  str "Polishing" ∈ categories (view demo_world)
  ∧ str "Polishing" ≠ activeCategory (view demo_world)
  ∧ [] ∈ categories (view unnamed)
  ∧ [] ≠ activeCategory (view unnamed)
  ∧ (∃ w', step demo_world (clickCategory (str "Polishing")) = Some w'
      ∧ view w' =
          assign (setContent [])
            (assign (setSelectedPrompt None)
               (assign (setLoading true)
                  (assign (setActiveCategory (str "Polishing")) (view demo_world))))
      ∧ request <$> inflight w' =
          (request <$> inflight demo_world) ++ [listPrompts (str "Polishing")]
      ∧ trace w' = trace demo_world ++ [requested (listPrompts (str "Polishing"))])
  ∧ (∃ w', step unnamed (clickCategory []) = Some w'
      ∧ view w' = assign (setActiveCategory []) (view unnamed)
      ∧ inflight w' = inflight unnamed
      ∧ trace w' = trace unnamed).
Proof.
  intros unnamed.
  assert (H1 : str "Polishing" ∈ categories (view demo_world))
    by (apply (bool_decide_unpack _); vm_compute; exact I).
  assert (H2 : [] ∈ categories (view unnamed))
    by (apply (bool_decide_unpack _); vm_compute; exact I).
  split; [exact H1|]. split; [discriminate|]. split; [exact H2|].
  split; [discriminate|]. split.
  - destruct (select_category demo_world (str "Polishing") H1 ltac:(discriminate))
      as (w' & Hstep & Hnamed & _).
    exists w'. split; [exact Hstep|]. apply Hnamed. discriminate.
  - destruct (select_category unnamed [] H2 ltac:(discriminate))
      as (w' & Hstep & _ & Hunnamed).
    exists w'. split; [exact Hstep|]. apply Hunnamed. reflexivity.
Defined.

Lemma reselect_active_category_witness :
  activeCategory (view demo_world) ∈ categories (view demo_world)
  ∧ step demo_world (clickCategory (str "Translate")) = Some demo_world.
Proof.
  assert (H : activeCategory (view demo_world) ∈ categories (view demo_world))
    by (apply (bool_decide_unpack _); vm_compute; exact I).
  split; [exact H|]. exact (reselect_active_category demo_world H).
Defined.

Lemma select_template_witness :
  str "b.txt" ∈ filteredPrompts (view demo_world)
  ∧ ∃ w1, step demo_world (clickPrompt (str "b.txt")) = Some w1
      ∧ request <$> inflight w1 = [getPromptContent (str "Translate") (str "b.txt")]
      ∧ ∃ w2, step w1 (settle 0 (resolved_text (str "Bonjour"))) = Some w2
          ∧ selectedPrompt (view w2) = Some (str "b.txt")
          ∧ content (view w2) = str "Bonjour".
Proof.
  assert (H : str "b.txt" ∈ filteredPrompts (view demo_world))
    by (apply (bool_decide_unpack _); vm_compute; exact I).
  split; [exact H|].
  destruct (select_template demo_world (str "b.txt") H)
    as (w1 & Hstep & Hview & Hreq & Hok & _).
  exists w1. split; [exact Hstep|]. split; [exact Hreq|].
  destruct (Hok (str "Bonjour")) as (w2 & Hstep2 & Hview2 & _).
  exists w2. split; [exact Hstep2|]. rewrite Hview2. split; reflexivity.
Defined.

Lemma content_lands_under_new_category_witness :
  str "b.txt" ∈ filteredPrompts (view demo_world)
  ∧ str "Polishing" ∈ categories (view demo_world)
  ∧ str "Polishing" ≠ activeCategory (view demo_world)
  ∧ truthy (str "Polishing") = true
  ∧ ∃ w', steps demo_world [clickPrompt (str "b.txt"); clickCategory (str "Polishing");
                            settle 0 (resolved_text (str "Bonjour"))] = Some w'
      ∧ activeCategory (view w') = str "Polishing"
      ∧ selectedPrompt (view w') = Some (str "b.txt")
      ∧ content (view w') = str "Bonjour"
      ∧ request <$> inflight w' = [listPrompts (str "Polishing")].
Proof.
  assert (H1 : str "b.txt" ∈ filteredPrompts (view demo_world))
    by (apply (bool_decide_unpack _); vm_compute; exact I).
  assert (H2 : str "Polishing" ∈ categories (view demo_world))
    by (apply (bool_decide_unpack _); vm_compute; exact I).
  split; [exact H1|]. split; [exact H2|]. split; [discriminate|].
  split; [reflexivity|].
  destruct (content_lands_under_new_category demo_world (str "b.txt")
              (str "Polishing") (str "Bonjour") H1 H2 ltac:(discriminate) eq_refl)
    as (w' & Hsteps & Hcat & Hsel & Hcontent & _ & Hreq & _).
  exists w'. split; [exact Hsteps|]. split; [exact Hcat|]. split; [exact Hsel|].
  split; [exact Hcontent | exact Hreq].
Defined.

Lemma categories_fail_or_empty_witness :
  inflight (mount (Some ∅)) !! 0%nat =
    head (suspensions (loadCategories (initialState (Some ∅))))
  ∧ (∀ e, ∃ w', step (mount (Some ∅)) (settle 0 (rejected e)) = Some w'
      ∧ view w' = initialState (Some ∅)
      ∧ inflight w' = []
      ∧ trace w' = [requested listPromptCategories; logged log_categories e])
  ∧ (∃ w', step (mount (Some ∅)) (settle 0 (resolved_names [])) = Some w'
      ∧ view w' = initialState (Some ∅)
      ∧ inflight w' = []
      ∧ trace w' = [requested listPromptCategories]).
Proof.
  split; [reflexivity|].
  apply (categories_fail_or_empty (initialState (Some ∅)) (mount (Some ∅)) 0).
  reflexivity.
Defined.

Lemma save_sends_buffer_of_click_witness :
  selectedPrompt (view demo_world) = Some (str "a.txt")
  ∧ truthy (str "a.txt") = true
  ∧ isSystem (view demo_world) = false
  ∧ saving (view demo_world) = false
  ∧ ∃ w', steps demo_world [clickSave; changeContent (str "Bye"); settle 0 resolved_ok]
          = Some w'
      ∧ view w' = assign (setSaving false) (assign (setContent (str "Bye")) demo_state)
      ∧ inflight w' = []
      ∧ trace w' =
          [requested (savePromptContent (str "Translate") (str "a.txt")
                        (str "Hello World"));
           alerted msg_saved].
Proof.
  do 4 (split; [reflexivity|]).
  apply (save_sends_buffer_of_click demo_world (str "a.txt") (str "Bye"));
    reflexivity.
Defined.

Lemma create_failures_witness :
  isCreating (view draft_world) = true
  ∧ ¬ whitespace_only (newName (view draft_world))
  ∧ (∃ w', steps draft_world [submitCreate; settle 0 (rejected ReadOnly)] = Some w'
       ∧ view w' = view draft_world
       ∧ inflight w' = []
       ∧ trace w' = [requested (savePromptContent (str "Translate") (str "foo.txt") []);
                     alerted msg_create_failed]).
Proof.
  assert (Hname : ¬ whitespace_only (newName (view draft_world))).
  { intros H. apply trim_nil in H. discriminate H. }
  split; [reflexivity|]. split; [exact Hname|].
  exact (proj1 (create_failures draft_world ReadOnly eq_refl Hname)).
Defined.

Lemma apply_through_the_button_witness :
  step demo_world clickApply = Some (run (handleApply demo_state) demo_world)
  ∧ ∃ sel key, selectedPrompt (view demo_world) = Some sel ∧ truthy sel = true
    ∧ (activeCategory (view demo_world) = str "Translate"
         ∧ key = translation_prompt_selection
       ∨ activeCategory (view demo_world) = str "Polishing"
         ∧ key = polishing_prompt_selection)
    ∧ (config (view demo_world) = None →
       run (handleApply demo_state) demo_world = demo_world)
    ∧ (∀ cfg, config (view demo_world) = Some cfg →
         view (run (handleApply demo_state) demo_world) = view demo_world
         ∧ request <$> inflight (run (handleApply demo_state) demo_world) =
             (request <$> inflight demo_world)
             ++ [saveConfig (<[key := selection_record (replace sel (str ".txt") [])
                                        (content (view demo_world))]> cfg)]).
Proof.
  split; [reflexivity|].
  exact (apply_through_the_button demo_world
           (run (handleApply demo_state) demo_world) eq_refl).
Defined.

Lemma apply_binds_unsaved_buffer_witness :
  selectedPrompt (view demo_world) = Some (str "a.txt")
  ∧ truthy (str "a.txt") = true
  ∧ isSelectionTarget (view demo_world) = true
  ∧ config (view demo_world) = Some ∅
  ∧ ∃ w', steps demo_world [changeContent (str "Bye"); clickApply] = Some w'
      ∧ view w' = assign (setContent (str "Bye")) (view demo_world)
      ∧ request <$> inflight w' =
          (request <$> inflight demo_world)
          ++ [saveConfig (apply_config (str "Translate") (str "a.txt") (str "Bye") ∅)]
      ∧ trace w' =
          trace demo_world
          ++ [requested (saveConfig
                           (apply_config (str "Translate") (str "a.txt") (str "Bye") ∅))].
Proof.
  do 4 (split; [reflexivity|]).
  apply (apply_binds_unsaved_buffer demo_world (str "a.txt") (str "Bye") ∅);
    reflexivity.
Defined.

Lemma applies_settle_out_of_order_witness :
  selectedPrompt (view demo_world) = Some (str "a.txt")
  ∧ truthy (str "a.txt") = true
  ∧ isSelectionTarget (view demo_world) = true
  ∧ config (view demo_world) = Some ∅
  ∧ ∃ w', steps demo_world [clickApply; changeContent (str "Bye"); clickApply;
                            settle 1 resolved_ok; settle 0 resolved_ok] = Some w'
      ∧ content (view w') = str "Bye"
      ∧ config (view w') =
          Some (apply_config (str "Translate") (str "a.txt") (str "Hello World") ∅).
Proof.
  do 4 (split; [reflexivity|]).
  destruct (applies_settle_out_of_order demo_world (str "a.txt") (str "Bye") ∅
              eq_refl eq_refl eq_refl eq_refl)
    as (w' & Hsteps & Hcontent & Hconfig & _).
  exists w'. split; [exact Hsteps|]. split; [exact Hcontent | exact Hconfig].
Defined.

Lemma draft_name_is_kept_witness :
  isSystem (view demo_world) = false
  ∧ ∃ w', steps demo_world [clickNewPrompt; changeNewName (str "foo"); cancelCreate;
                            clickNewPrompt] = Some w'
      ∧ view w' =
          assign (setIsCreating true) (assign (setNewName (str "foo")) (view demo_world))
      ∧ inflight w' = inflight demo_world
      ∧ trace w' = trace demo_world.
Proof.
  split; [reflexivity|].
  apply (draft_name_is_kept demo_world (str "foo")). reflexivity.
Defined.

Lemma apply_id_and_label_witness :
  (46 ∉ str "glossary")
  ∧ replace (str "glossary.txt") (str ".txt") [] = str "glossary"
  ∧ display_name (str "glossary.txt") = str "glossary"
  ∧ replace (str "glossary.json") (str ".txt") [] = str "glossary.json"
  ∧ display_name (str "glossary.json") = str "glossary".
Proof.
  assert (H : 46 ∉ str "glossary")
    by (apply (bool_decide_unpack _); vm_compute; exact I).
  split; [exact H|]. exact (apply_id_and_label (str "glossary") H).
Defined.

Lemma label_of_created_file_witness :
  endsWith (str "foo") (str ".txt") = false
  ∧ display_name (create_filename (str "foo")) = str "foo".
Proof.
  split; [reflexivity|].
  exact (proj2 (proj2 (label_of_created_file (str "foo"))) eq_refl).
Defined.

Lemma no_unhandled_rejection_witness :
  steps (mount (Some ∅)) applied_history = Some applied_world
  ∧ (unhandled ReadOnly ∉ trace applied_world).
Proof.
  assert (H : steps (mount (Some ∅)) applied_history = Some applied_world)
    by (vm_compute; reflexivity).
  split; [exact H|].
  exact (no_unhandled_rejection (Some ∅) applied_history applied_world ReadOnly H).
Defined.

Lemma rejections_are_reported_witness :
  steps (mount (Some ∅)) [] = Some (mount (Some ∅))
  ∧ ∃ q, inflight (mount (Some ∅)) !! 0%nat = Some q
      ∧ request q = listPromptCategories
      ∧ ∃ w' o t, step (mount (Some ∅)) (settle 0 (rejected TransportFailure)) = Some w'
          ∧ trace w' = trace (mount (Some ∅)) ++ o :: t
          ∧ is_report (request q) TransportFailure o.
Proof.
  split; [reflexivity|]. eexists. split; [reflexivity|]. split; [reflexivity|].
  apply (rejections_are_reported (Some ∅) [] (mount (Some ∅)) 0 _ TransportFailure);
    reflexivity.
Defined.

Lemma loading_means_load_in_flight_witness :
  ∃ w, steps (mount (Some ∅))
         [settle 0 (resolved_names [str "System"; str "Translate"; str "Polishing"])]
       = Some w
    ∧ loading (view w) = true
    ∧ ∃ i q, inflight w !! i = Some q
        ∧ ((∃ cat, request q = listPrompts cat)
           ∨ (∃ cat filename, request q = getPromptContent cat filename)).
Proof.
  eexists. split; [vm_compute; reflexivity|]. split; [reflexivity|].
  apply (loading_means_load_in_flight (Some ∅)
           [settle 0 (resolved_names [str "System"; str "Translate"; str "Polishing"])]);
    [vm_compute; reflexivity | reflexivity].
Defined.

Lemma loading_goes_off_at_first_response_witness :
  str "Polishing" ∈ categories (view demo_world)
  ∧ str "System" ∈ categories (view demo_world)
  ∧ truthy (str "Polishing") = true ∧ truthy (str "System") = true
  ∧ str "Polishing" ≠ activeCategory (view demo_world)
  ∧ str "System" ≠ str "Polishing"
  ∧ ∃ w', steps demo_world [clickCategory (str "Polishing"); clickCategory (str "System");
                            settle 0 (resolved_names [str "polish.txt"])] = Some w'
      ∧ loading (view w') = false
      ∧ activeCategory (view w') = str "System"
      ∧ prompts (view w') = [str "polish.txt"]
      ∧ request <$> inflight w' =
          (request <$> inflight demo_world) ++ [listPrompts (str "System")].
Proof.
  assert (H1 : str "Polishing" ∈ categories (view demo_world))
    by (apply (bool_decide_unpack _); vm_compute; exact I).
  assert (H2 : str "System" ∈ categories (view demo_world))
    by (apply (bool_decide_unpack _); vm_compute; exact I).
  split; [exact H1|]. split; [exact H2|]. do 2 (split; [reflexivity|]).
  do 2 (split; [discriminate|]).
  exact (loading_goes_off_at_first_response demo_world (str "Polishing") (str "System")
           [str "polish.txt"] H1 H2 eq_refl eq_refl
           ltac:(discriminate) ltac:(discriminate)).
Defined.

Lemma categories_are_asked_once_witness :
  steps (mount (Some ∅)) [settle 0 (rejected TransportFailure)]
  = Some {| view := initialState (Some ∅); inflight := [];
            trace := [requested listPromptCategories;
                      logged log_categories TransportFailure] |}
  ∧ categories_requests
      [requested listPromptCategories; logged log_categories TransportFailure] = 1%nat.
Proof.
  assert (H : steps (mount (Some ∅)) [settle 0 (rejected TransportFailure)]
              = Some {| view := initialState (Some ∅); inflight := [];
                        trace := [requested listPromptCategories;
                                  logged log_categories TransportFailure] |})
    by (vm_compute; reflexivity).
  split; [exact H|].
  exact (categories_are_asked_once (Some ∅) [settle 0 (rejected TransportFailure)]
           _ H).
Defined.

Lemma file_list_filter_witness :
  let w := exec (setFilter (str "B")) demo_world in
  prompts (view w) = [str "a.txt"; str "b.txt"]
  ∧ filteredPrompts (view w) = [str "b.txt"]
  ∧ is_Some (step w (clickPrompt (str "b.txt")))
  ∧ ¬ is_Some (step w (clickPrompt (str "a.txt"))).
Proof.
  intros w. split; [reflexivity|]. split; [vm_compute; reflexivity|].
  assert (Hshown : str "b.txt" ∈ filteredPrompts (view w))
    by (apply (bool_decide_unpack _); vm_compute; exact I).
  assert (Hhidden : str "a.txt" ∉ filteredPrompts (view w))
    by (apply (bool_decide_unpack _); vm_compute; exact I).
  split.
  - destruct (file_list_filter w (str "b.txt")) as (_ & _ & Hclick & _).
    apply Hclick. exact Hshown.
  - destruct (file_list_filter w (str "a.txt")) as (_ & _ & Hclick & _).
    intros Hsome. apply Hhidden, Hclick. exact Hsome.
Defined.

Lemma draft_writes_into_System_witness :
  isSystem (view demo_world) = false
  ∧ str "System" ∈ categories (view demo_world)
  ∧ ¬ whitespace_only (str "mine")
  ∧ ∃ w', steps demo_world [clickNewPrompt; clickCategory (str "System");
                            changeNewName (str "mine"); submitCreate] = Some w'
      ∧ activeCategory (view w') = str "System"
      ∧ step w' clickNewPrompt = None
      ∧ request <$> inflight w' =
          (request <$> inflight demo_world)
          ++ [listPrompts (str "System");
              savePromptContent (str "System") (create_filename (str "mine")) []].
Proof.
  assert (H1 : str "System" ∈ categories (view demo_world))
    by (apply (bool_decide_unpack _); vm_compute; exact I).
  assert (H2 : ¬ whitespace_only (str "mine")).
  { intros H. apply trim_nil in H. discriminate H. }
  split; [reflexivity|]. split; [exact H1|]. split; [exact H2|].
  exact (draft_writes_into_System demo_world (str "mine") eq_refl H1 H2).
Defined.

Lemma one_save_in_flight_witness :
  ∃ w, steps (mount (Some ∅)) (opened_history ++ [clickSave]) = Some w
    ∧ ∃ q, inflight w !! 0%nat = Some q
        ∧ q ∈ suspensions (handleSave demo_state)
        ∧ saving (view w) = true
        ∧ step w clickSave = None.
Proof.
  eexists. split; [vm_compute; reflexivity|].
  eexists. split; [reflexivity|].
  match goal with
  | |- ?q ∈ _ ∧ _ =>
      assert (Hq : q ∈ suspensions (handleSave demo_state))
        by (apply list_elem_of_singleton; reflexivity)
  end.
  split; [exact Hq|].
  match goal with
  | |- saving (view ?w) = _ ∧ _ =>
      assert (Hsteps : steps (mount (Some ∅)) (opened_history ++ [clickSave]) = Some w)
        by (vm_compute; reflexivity);
      destruct (one_save_in_flight (Some ∅) (opened_history ++ [clickSave]) w 0 _
                  demo_state Hsteps eq_refl Hq)
        as (Hsaving & Hstep & _)
  end.
  split; [exact Hsaving | exact Hstep].
Defined.

(** C1 fails as stated: with [Translate] active, a switch to [Polishing]
    and then to [System]; the list for [System] comes first and the list
    for [Polishing] after it.  [System] is active and the list held is the
    one of [Polishing]. *)
Lemma stale_list_overwrites_newer_selection :
  ∃ w', steps (mount (Some ∅))
          [settle 0 (resolved_names [str "System"; str "Translate"; str "Polishing"]);
           settle 0 (resolved_names [str "a.txt"]);
           clickCategory (str "Polishing");
           clickCategory (str "System");
           settle 1 (resolved_names [str "sys.txt"]);
           settle 0 (resolved_names [str "polish.txt"])] = Some w'
    ∧ request <$> inflight w' = []
    ∧ activeCategory (view w') = str "System"
    ∧ prompts (view w') = [str "polish.txt"]
    ∧ prompts (view w') ≠ [str "sys.txt"].
Proof. eexists. split; [by vm_compute|]. by vm_compute. Qed.

(** C2 fails as stated: once the operator has opened a template of
    [System], the Save button is not on the page, but [handleSave] itself
    makes the [savePromptContent] call against [System], and when the store
    lets it through the page reports the save as done.  Nothing in the save
    operation refuses the category. *)
Lemma handleSave_writes_to_System :
  ∃ w, steps (mount (Some ∅)) system_history = Some w
    ∧ view w = system_state
    ∧ inflight w = []
    ∧ step w clickSave = None
    ∧ request <$> inflight (run (handleSave (view w)) w) =
        [savePromptContent (str "System") (str "sys.txt") (str "You are a translator.")]
    ∧ ∃ w', step (run (handleSave (view w)) w) (settle 0 resolved_ok) = Some w'
        ∧ trace w' =
            trace w ++
            [requested (savePromptContent (str "System") (str "sys.txt")
                          (str "You are a translator."));
             alerted msg_saved].
Proof.
  eexists. split; [by vm_compute|]. do 4 (split; [by vm_compute|]).
  eexists. split; by vm_compute.
Qed.

(** C10 fails as stated: the call for the categories resolves with a list
    that is not empty, whose first name is the empty string and which has
    no ['Translate'].  The page holds the list and [setActiveCategory('')]
    leaves it without an active category: no list of templates is asked
    for and nothing is in flight. *)
Lemma unnamed_first_category_selects_nothing :
  ∃ w', step (mount (Some ∅)) (settle 0 (resolved_names [[]; str "Polishing"])) = Some w'
    ∧ categories (view w') = [[]; str "Polishing"]
    ∧ categories (view w') ≠ []
    ∧ activeCategory (view w') = activeCategory (initialState (Some ∅))
    ∧ truthy (activeCategory (view w')) = false
    ∧ inflight w' = []
    ∧ trace w' = [requested listPromptCategories].
Proof. eexists. split; [by vm_compute|]. by vm_compute. Qed.

(** A template that the filter hides is not on the page: with the filter
    [B] the list of [a.txt] and [b.txt] shows [b.txt] only, whose
    lower-cased name contains [b], and [a.txt] cannot be opened. *)
Example filter_hides_entry :
  let w := exec (setFilter (str "B")) demo_world in
  filteredPrompts (view w) = [str "b.txt"]
  ∧ step w (clickPrompt (str "a.txt")) = None
  ∧ step w (clickPrompt (str "b.txt")) = Some (run (loadPromptContent (view w) (str "b.txt")) w).
Proof. by vm_compute. Qed.

(** The spec's scenario: three categories, [Translate] is picked, [a.txt]
    is opened, edited, saved and applied. *)
Example scenario :
  (λ w, (activeCategory (view w), prompts (view w), selectedPrompt (view w),
         content (view w),
         (λ c : Config, c !! translation_prompt_selection) <$> config (view w),
         length (inflight w))) <$>
  steps (mount (Some ∅))
    [settle 0 (resolved_names [str "System"; str "Translate"; str "Polishing"]);
     settle 0 (resolved_names [str "a.txt"; str "b.txt"]);
     clickPrompt (str "a.txt");
     settle 0 (resolved_text (str "Hello"));
     changeContent (str "Hello World");
     clickSave; settle 0 resolved_ok;
     clickApply; settle 0 resolved_ok]
  = Some (str "Translate", [str "a.txt"; str "b.txt"], Some (str "a.txt"),
          str "Hello World",
          Some (Some (selection_record (str "a") (str "Hello World"))), 0%nat).
Proof. vm_compute. reflexivity. Qed.

Lemma demo_world_reachable :
  ∃ w, steps (mount (Some ∅)) opened_history = Some w
    ∧ view w = demo_state ∧ inflight w = [].
Proof. eexists. split; [by vm_compute|]. by vm_compute. Qed.

(** The draft of a new template stays open across a change of category:
    opened under [Translate], it can be submitted under [System], and the
    page then asks the store to write into [System]. *)
Remark draft_survives_category_switch :
  ∃ w', steps (mount (Some ∅))
          [settle 0 (resolved_names [str "System"; str "Translate"; str "Polishing"]);
           settle 0 (resolved_names [str "a.txt"]);
           clickNewPrompt;
           clickCategory (str "System");
           settle 0 (resolved_names [str "sys.txt"]);
           changeNewName (str "mine");
           submitCreate] = Some w'
    ∧ request <$> inflight w' = [savePromptContent (str "System") (str "mine.txt") []].
Proof. eexists. split; by vm_compute. Qed.
